(** * video_tagger: a shallow embedding of [video_tagger.py]

    The program walks a directory of video files, sends each one through a
    remote pipeline (upload, poll until ready, generate a description and
    tags), repairs the generated text when it is loosely formatted, and
    renders the collected results, resuming from a previous [results.csv].

    Modelling conventions.
    - Python [str] values are [string]s.  Case folding and white space are
      those of Python on ASCII text, which is the text the embedding is
      exact for: the facts that depend on [strip] or [lower] finding or
      leaving a character are stated for text that is [ascii_only].
    - Result dictionaries are finite maps from keys to text ([gmap]).
    - The remote client, the clock, [time.sleep] and [random.random] are the
      operations of a [Client] over an abstract world; file-system queries are
      the fields of a [FileSystem].
    - Code that talks to the world lives in a state monad that also records
      the calls made (the [log]).  A run that yields nothing did not return:
      an exception escaped it ([time.sleep] raises [ValueError] on a negative
      delay) or its loop ran out of fuel; the [while] loops are driven by a
      fuel argument, and each top-level function is shown to return with the
      fuel it passes.
    - Python's floats are exact rationals.  A random offset is taken from a
      closed interval: [random.random()] is below one, but the float sum it
      enters can round up to the upper end.
    - A Python exception caught by [except Exception] is a value [inl msg],
      [msg] being [str(e)]. *)

From Stdlib Require Import ZArith QArith Qround Lqa String Ascii List Lia Bool.
From stdpp Require Import base option list gmap strings.

Local Open Scope string_scope.
Local Open Scope list_scope.

(** ** Python string operations *)

Module PyStr.

(** The newline, carriage return and double quote characters. *)
Definition nl : string := String "010"%char EmptyString.
Definition cr : string := String "013"%char EmptyString.
Definition dquote : string := String "034"%char EmptyString.

(** The text is made of ASCII characters only. *)
Fixpoint ascii_only (s : string) : bool :=
  match s with
  | EmptyString => true
  | String c s' => (nat_of_ascii c <? 128)%nat && ascii_only s'
  end.

(** [bool(s)]: a string is truthy when it is not empty. *)
Definition truthy (s : string) : bool :=
  match s with EmptyString => false | String _ _ => true end.

(** [c.isspace()] on the ASCII range: tab to carriage return, the four
    separators 0x1c-0x1f, and the space. *)
Definition isspace (c : ascii) : bool :=
  let n := nat_of_ascii c in
  ((9 <=? n)%nat && (n <=? 13)%nat) || ((28 <=? n)%nat && (n <=? 32)%nat).

Definition lower_char (c : ascii) : ascii :=
  let n := nat_of_ascii c in
  if (65 <=? n)%nat && (n <=? 90)%nat then ascii_of_nat (n + 32) else c.

(** [s.lower()] *)
Fixpoint lower (s : string) : string :=
  match s with
  | EmptyString => EmptyString
  | String c s' => String (lower_char c) (lower s')
  end.

Fixpoint lstrip (s : string) : string :=
  match s with
  | EmptyString => EmptyString
  | String c s' => if isspace c then lstrip s' else s
  end.

Fixpoint rstrip (s : string) : string :=
  match s with
  | EmptyString => EmptyString
  | String c s' =>
      match rstrip s' with
      | EmptyString => if isspace c then EmptyString else String c EmptyString
      | r => String c r
      end
  end.

(** [s.strip()] *)
Definition strip (s : string) : string := rstrip (lstrip s).

(** [s.startswith(p)] *)
Definition startswith (s p : string) : bool := String.prefix p s.

(** [sub in s] *)
Fixpoint contains (s sub : string) : bool :=
  startswith s sub ||
  match s with
  | EmptyString => false
  | String _ s' => contains s' sub
  end.

(** [s[n:]] *)
Fixpoint drop_chars (n : nat) (s : string) : string :=
  match n, s with
  | O, _ => s
  | S n', String _ s' => drop_chars n' s'
  | S _, EmptyString => EmptyString
  end.

(** The two parts of [s] around the first occurrence of [sep], if any. *)
Fixpoint split_once (s sep : string) : option (string * string) :=
  if startswith s sep then Some (EmptyString, drop_chars (String.length sep) s)
  else
    match s with
    | EmptyString => None
    | String c s' =>
        match split_once s' sep with
        | Some (a, b) => Some (String c a, b)
        | None => None
        end
    end.

(** [s.split(sep, 1)]: one or two parts. *)
Definition split1 (s sep : string) : list string :=
  match split_once s sep with
  | Some (a, b) => [a; b]
  | None => [s]
  end.

(** [s.split(c)] for a one-character separator: never the empty list. *)
Fixpoint split_char (s : string) (c : ascii) : list string :=
  match s with
  | EmptyString => [EmptyString]
  | String a s' =>
      if Ascii.eqb a c then EmptyString :: split_char s' c
      else
        match split_char s' c with
        | h :: t => String a h :: t
        | [] => [String a EmptyString]
        end
  end.

(** [s.split('\n')] *)
Definition split_lines (s : string) : list string := split_char s "010"%char.

(** [s.replace(old, '')] for a non-empty [old]: the occurrences are found
    from the left and do not overlap; [skip] counts the characters of the
    current occurrence still to drop. *)
Fixpoint remove_from (s old : string) (skip : nat) : string :=
  match s with
  | EmptyString => EmptyString
  | String c s' =>
      match skip with
      | S k => remove_from s' old k
      | O =>
          if startswith s old then remove_from s' old (String.length old - 1)
          else String c (remove_from s' old 0)
      end
  end.

Definition remove_all (s old : string) : string := remove_from s old 0.

(** [sep.join(parts)] *)
Fixpoint join (sep : string) (parts : list string) : string :=
  match parts with
  | [] => EmptyString
  | [p] => p
  | p :: rest => p +:+ sep +:+ join sep rest
  end.

End PyStr.

Import PyStr.

(** ** Paths *)

(** A path is the list of its components; [Path.name] is the last one. *)
Definition Path : Type := list string.

Definition name (p : Path) : string := List.last p EmptyString.

(** Index of the last ["."] of a name ([name.rfind('.')]). *)
Fixpoint rfind_dot (s : string) : option nat :=
  match s with
  | EmptyString => None
  | String c s' =>
      match rfind_dot s' with
      | Some i => Some (S i)
      | None => if Ascii.eqb c "."%char then Some 0 else None
      end
  end.

(** [Path.suffix]: the last dot and what follows it, unless the dot is the
    first or the last character of the name. *)
Definition suffix (p : Path) : string :=
  let n := name p in
  match rfind_dot n with
  | Some i => if (0 <? i)%nat && (i <? String.length n - 1)%nat then drop_chars i n else EmptyString
  | None => EmptyString
  end.

(** ** The file system *)

(** What the csv reader yields, row after row, for [results.csv]: a parsed
    row, or the exception it raises there. *)
Inductive ReadEvent : Type :=
  | Row (row : list string)
  | ReadError (e : string).

Record FileSystem : Type := {
  fs_exists : Path -> bool;
  fs_is_file : Path -> bool;
  fs_is_dir : Path -> bool;
  (** [stat().st_size] *)
  fs_size : Path -> Z;
  (** [glob('**/*')], in enumeration order *)
  fs_glob : Path -> list Path;
  (** first component of [mimetypes.guess_type(str(p))] *)
  guess_type : Path -> option string;
  (** [results.csv] in the working directory; [None] when there is none *)
  results_csv : option (list ReadEvent)
}.

Definition video_extensions : list string :=
  [".mp4"; ".mpeg"; ".mov"; ".avi"; ".flv"; ".mpg"; ".webm"; ".wmv"; ".3gp"].

Definition is_video_extension (ext : string) : bool :=
  bool_decide (ext ∈ video_extensions).

(** [is_valid_video_file(file_path, min_size_bytes=10)] *)
Definition is_valid_video_file (fs : FileSystem) (file_path : Path) (min_size_bytes : Z) : bool :=
  if negb (fs_exists fs file_path) || negb (fs_is_file fs file_path) then false
  else if (fs_size fs file_path <? min_size_bytes)%Z then false
  else if negb (is_video_extension (lower (suffix file_path))) then false
  else
    match guess_type fs file_path with
    | Some mime_type =>
        if truthy mime_type && negb (startswith mime_type "video/") then false else true
    | None => true
    end.

(** ** Result dictionaries *)

(** An analysis result is a Python [dict] with string keys and values. *)
Abbreviation Result := (gmap string string).

(** [{"filename": filename, "response": text}] *)
Definition response_result (filename text : string) : Result :=
  {[ "filename" := filename; "response" := text ]}.

(** [{"filename": filename, "error": message}] *)
Definition error_result (filename message : string) : Result :=
  {[ "filename" := filename; "error" := message ]}.

(** [bool(d)] for a dictionary. *)
Definition dict_truthy (d : Result) : bool := negb (bool_decide (d = ∅)).

(** [key in d] *)
Definition has_key (key : string) (d : Result) : bool := bool_decide (is_Some (d !! key)).

(** ** The remote client, the clock and the random source *)

(** What the File API hands back: [file.name], [file.uri], [file.state.name]. *)
Record FileObj : Type := {
  file_name : string;
  file_uri : string;
  file_state : string
}.

(** A caught exception, as its message. *)
Definition Exn : Type := string.

(** The calls a run makes, in order, with what each one got back. *)
Inductive Event : Type :=
  | EvUpload (p : Path) (r : Exn + FileObj)
  | EvGetFile (n : string) (r : Exn + FileObj)
  | EvGenerate (uri : string) (r : Exn + option string)
  | EvSleep (d : Q)
  | EvClock (t : Q).

(** The outside world.  [generate_content] answers [inr None] for a missing
    response or response text.  Sleeping lasts at least as long as asked, a
    status query does not turn the clock back, and a random draw, as it ends
    up in a delay, lies in the closed unit interval. *)
Class Client (World : Type) : Type := {
  upload_file : Path -> World -> (Exn + FileObj) * World;
  get_file : string -> World -> (Exn + FileObj) * World;
  generate_content : string -> World -> (Exn + option string) * World;
  clock : World -> Q;
  time_sleep : Q -> World -> World;
  random_random : World -> Q * World;
  clock_sleep : forall d w, (clock w + d <= clock (time_sleep d w))%Q;
  clock_get_file : forall n w, (clock w <= clock (snd (get_file n w)))%Q;
  random_range : forall w, (0 <= fst (random_random w))%Q /\ (fst (random_random w) <= 1)%Q
}.

Section Pipeline.

Context {World : Type} {client : Client World}.

(** *** The monad: state, call log, and running out of fuel *)

Record State : Type := mkState { world : World; log : list Event }.

Definition M (A : Type) : Type := State -> option (A * State).

Definition ret {A : Type} (a : A) : M A := fun s => Some (a, s).

Definition bind {A B : Type} (m : M A) (k : A -> M B) : M B :=
  fun s => match m s with
           | Some (a, s1) => k a s1
           | None => None
           end.

(** The loop ran out of fuel. *)
Definition out_of_fuel {A : Type} : M A := fun _ => None.

(** An exception that nothing catches ends the run. *)
Definition escapes {A : Type} : M A := fun _ => None.

Notation "x <- m ;; k" := (bind m (fun x => k))
  (at level 100, m at next level, right associativity).

(** A call on the world, recorded in the log with its answer. *)
Definition call {A : Type} (op : World -> A * World) (ev : A -> Event) : M A :=
  fun s => let (a, w) := op (world s) in Some (a, mkState w (log s ++ [ev a])).

Definition do_upload (p : Path) : M (Exn + FileObj) := call (upload_file p) (EvUpload p).

Definition do_get_file (n : string) : M (Exn + FileObj) := call (get_file n) (EvGetFile n).

Definition do_generate (uri : string) : M (Exn + option string) :=
  call (generate_content uri) (EvGenerate uri).

(** [time.time()] *)
Definition do_time : M Q :=
  fun s => let t := clock (world s) in Some (t, mkState (world s) (log s ++ [EvClock t])).

(** [time.sleep(d)] where nothing catches its exception: a negative [d]
    raises [ValueError]. *)
Definition do_sleep (d : Q) : M unit :=
  fun s => if Qlt_le_dec d 0 then escapes s
           else Some (tt, mkState (time_sleep d (world s)) (log s ++ [EvSleep d])).

(** [random.uniform(a, b)], that is [a + (b - a) * random.random()] *)
Definition uniform (a b : Q) : M Q :=
  fun s => let (r, w) := random_random (world s) in
           Some ((a + (b - a) * r)%Q, mkState w (log s)).

(** The delay before retry number [retry_count]. *)
Definition backoff (base_delay : Q) (retry_count : nat) (jitter : Q) : Q :=
  (base_delay * inject_Z (2 ^ Z.of_nat retry_count) + jitter)%Q.

(** *** upload_video_to_file_api *)

(** The [while retry_count <= max_retries] loop. *)
Fixpoint upload_loop (fuel : nat) (video_path : Path) (max_retries : nat) (base_delay : Q)
    (retry_count : nat) : M (option FileObj) :=
  match fuel with
  | O => out_of_fuel
  | S fuel =>
      if (retry_count <=? max_retries)%nat then
        r <- do_upload video_path ;;
        match r with
        | inr file_obj => ret (Some file_obj)
        | inl error_message =>
            let retry_count := S retry_count in
            if (retry_count <=? max_retries)%nat then
              jitter <- uniform 0 1 ;;
              let delay := backoff base_delay retry_count jitter in
              _ <- do_sleep delay ;;
              upload_loop fuel video_path max_retries base_delay retry_count
            else ret None
        end
      else ret None
  end.

(** [upload_video_to_file_api(client, video_path, max_retries=3, base_delay=2)] *)
Definition upload_video_to_file_api (video_path : Path) (max_retries : nat) (base_delay : Q)
    : M (option FileObj) :=
  upload_loop (S (S max_retries)) video_path max_retries base_delay 0.

(** *** wait_for_file_processing *)

(** How the wait ended.  The function returns the refreshed file in the first
    case and [None] in the three others, which differ by the message printed. *)
Inductive PollOutcome : Type :=
  | Ready (updated_file : FileObj)
  | TimedOut (elapsed_time : Q)
  | ProcessingFailed
  | QueryError (e : Exn).

(** The value [wait_for_file_processing] returns. *)
Definition returned (o : PollOutcome) : option FileObj :=
  match o with
  | Ready updated_file => Some updated_file
  | TimedOut _ | ProcessingFailed | QueryError _ => None
  end.

(** The [while True] loop. *)
Fixpoint poll_loop (fuel : nat) (file_obj : FileObj) (max_wait_time check_interval start_time : Q)
    : M PollOutcome :=
  match fuel with
  | O => out_of_fuel
  | S fuel =>
      now <- do_time ;;
      let elapsed_time := (now - start_time)%Q in
      if Qlt_le_dec max_wait_time elapsed_time then ret (TimedOut elapsed_time)
      else
        r <- do_get_file (file_name file_obj) ;;
        match r with
        | inr updated_file =>
            if file_state updated_file =? "ACTIVE" then ret (Ready updated_file)
            else if file_state updated_file =? "FAILED" then ret ProcessingFailed
            else if Qlt_le_dec check_interval 0 then
              (* [time.sleep] raises inside the [try] *)
              ret (QueryError "sleep length must be non-negative")
            else
              _ <- do_sleep check_interval ;;
              poll_loop fuel file_obj max_wait_time check_interval start_time
        | inl e => ret (QueryError e)
        end
  end.

(** Polls that fit in the wait: one at the start, one per whole interval, and
    the one that finds the time up. *)
Definition poll_fuel (max_wait_time check_interval : Q) : nat :=
  S (S (Z.to_nat (Qfloor (max_wait_time / check_interval)))).

(** [wait_for_file_processing(client, file_obj, max_wait_time=600, check_interval=10)] *)
Definition wait_for_file_processing (file_obj : FileObj) (max_wait_time check_interval : Q)
    : M PollOutcome :=
  start_time <- do_time ;;
  poll_loop (poll_fuel max_wait_time check_interval) file_obj max_wait_time check_interval
    start_time.

(** *** analyze_video *)

(** How one pass through the [try] body ends when nothing is raised: with a
    result text, or with an empty response. *)
Inductive Attempt : Type :=
  | Return (text : string)
  | EmptyResponse.

(** The [for line in lines] loop of the repair.  [line.split(m, 1)[1]] raises
    [IndexError] when the line holds no [m] spelled as written. *)
Fixpoint reformat_lines (lines : list string) (formatted_text : string) : Exn + string :=
  match lines with
  | [] => inr formatted_text
  | line :: lines =>
      let line := strip line in
      if startswith (lower line) "description:" || contains (lower line) "description:" then
        match split1 line "description:" !! 1%nat with
        | Some rest =>
            reformat_lines lines (formatted_text +:+ "- Description:" +:+ strip rest +:+ nl)
        | None => inl "list index out of range"
        end
      else if startswith (lower line) "tags:" || contains (lower line) "tags:" then
        match split1 line "tags:" !! 1%nat with
        | Some rest => reformat_lines lines (formatted_text +:+ "- Tags:" +:+ strip rest)
        | None => inl "list index out of range"
        end
      else reformat_lines lines formatted_text
  end.

(** The words the repair looks for before it scans the lines. *)
Definition mentions_both (text : string) : bool :=
  contains (lower text) "description" && contains (lower text) "tags".

(** The response has the expected format. *)
Definition well_formed (text : string) : bool :=
  contains text "Description:" && contains text "Tags:".

(** The [try] body after [generate_content] has answered. *)
Definition handle_response (response : option string) : Exn + Attempt :=
  match response with
  | None => inr EmptyResponse
  | Some response_text =>
      if negb (truthy response_text) || (strip response_text =? "") then inr EmptyResponse
      else
        let text := strip response_text in
        if negb (well_formed text) then
          if mentions_both text then
            match reformat_lines (split_lines text) "" with
            | inl e => inl e
            | inr formatted_text =>
                if truthy formatted_text then inr (Return formatted_text)
                else inr (Return text)
            end
          else inr (Return text)
        else inr (Return text)
  end.

(** The [while retry_count <= max_retries] loop around the generation call. *)
Fixpoint generate_loop (fuel : nat) (filename : string) (processed_file : FileObj)
    (max_retries retry_count : nat) : M Result :=
  match fuel with
  | O => out_of_fuel
  | S fuel =>
      if (retry_count <=? max_retries)%nat then
        r <- do_generate (file_uri processed_file) ;;
        match match r with inl e => inl e | inr response => handle_response response end with
        | inr (Return text) => ret (response_result filename text)
        | inr EmptyResponse =>
            let retry_count := S retry_count in
            if (retry_count <=? max_retries)%nat then
              jitter <- uniform 0 1 ;;
              _ <- do_sleep (backoff 2 retry_count jitter) ;;
              generate_loop fuel filename processed_file max_retries retry_count
            else ret (error_result filename "Empty response received after multiple attempts")
        | inl error_message =>
            let retry_count := S retry_count in
            if (retry_count <=? max_retries)%nat then
              jitter <- uniform 0 1 ;;
              _ <- do_sleep (backoff 2 retry_count jitter) ;;
              generate_loop fuel filename processed_file max_retries retry_count
            else ret (error_result filename error_message)
        end
      else ret (error_result filename "Maximum retry attempts exceeded")
  end.

(** [analyze_video(client, video_path, max_retries=3)] *)
Definition analyze_video (fs : FileSystem) (video_path : Path) (max_retries : nat) : M Result :=
  if negb (is_valid_video_file fs video_path 10) then
    ret (error_result (name video_path) "Invalid or unsupported video file")
  else
    file_obj <- upload_video_to_file_api video_path 3 2 ;;
    match file_obj with
    | None => ret (error_result (name video_path) "Failed to upload video to File API")
    | Some file_obj =>
        processed_file <- wait_for_file_processing file_obj 600 10 ;;
        match returned processed_file with
        | None => ret (error_result (name video_path) "Video processing failed or timed out")
        | Some processed_file =>
            generate_loop (S (S max_retries)) (name video_path) processed_file max_retries 0
        end
    end.

(** *** process_videos *)

(** The files of the directory to process: every enumerated path with a video
    extension, restricted to [specific_file] when one is given. *)
Fixpoint collect_video_files (paths : list Path) (specific_file : option string) : list Path :=
  match paths with
  | [] => []
  | file_path :: paths =>
      if is_video_extension (lower (suffix file_path)) then
        match specific_file with
        | Some specific =>
            if truthy specific && negb (name file_path =? specific)
            then collect_video_files paths specific_file
            else file_path :: collect_video_files paths specific_file
        | None => file_path :: collect_video_files paths specific_file
        end
      else collect_video_files paths specific_file
  end.

(** The result rebuilt from a row of [results.csv]. *)
Definition reconstituted (filename description tags : string) : Result :=
  response_result filename ("- Description: " +:+ description +:+ nl +:+ "- Tags: " +:+ tags).

(** The [for row in reader] loop.  The flag tells whether the reader was read
    to its end; the names and results gathered before an exception stay. *)
Fixpoint read_rows (reader : list ReadEvent) (previous_processed : gset string)
    (previous_results : list Result) : bool * gset string * list Result :=
  match reader with
  | [] => (true, previous_processed, previous_results)
  | ReadError _ :: _ => (false, previous_processed, previous_results)
  | Row row :: reader =>
      match row with
      | filename :: description :: tags :: _ =>
          if truthy filename && (truthy description && truthy tags) then
            read_rows reader ({[ filename ]} ∪ previous_processed)
              (previous_results ++ [reconstituted filename description tags])
          else read_rows reader previous_processed previous_results
      | _ => read_rows reader previous_processed previous_results
      end
  end.

(** [[f for f in video_files if f.name not in previous_processed]] *)
Definition remove_processed (previous_processed : gset string) (video_files : list Path) : list Path :=
  List.filter (fun f => negb (bool_decide (name f ∈ previous_processed))) video_files.

(** The check for previous results: the files still to process and the
    results taken over from [results.csv]. *)
Definition check_previous (fs : FileSystem) (force_retry : bool) (video_files : list Path)
    : list Path * list Result :=
  if force_retry then (video_files, [])
  else
    match results_csv fs with
    | None => (video_files, [])
    | Some [] => (video_files, [])
    | Some (ReadError _ :: _) => (video_files, [])
    | Some (Row _ :: reader) =>
        match read_rows reader ∅ [] with
        | (true, previous_processed, previous_results) =>
            if negb (bool_decide (previous_processed = ∅))
            then (remove_processed previous_processed video_files, previous_results)
            else (video_files, previous_results)
        | (false, _, previous_results) => (video_files, previous_results)
        end
    end.

(** The [for i, file_path in enumerate(video_files)] loop. *)
Fixpoint process_each (fs : FileSystem) (video_files : list Path) (wait_time : Q)
    (results : list Result) : M (list Result) :=
  match video_files with
  | [] => ret results
  | file_path :: video_files =>
      result <- analyze_video fs file_path 3 ;;
      let results := if dict_truthy result then results ++ [result] else results in
      match video_files with
      | [] => ret results
      | _ :: _ =>
          jitter <- uniform 1 3 ;;
          _ <- do_sleep (wait_time + jitter) ;;
          process_each fs video_files wait_time results
      end
  end.

(** [process_videos(client, video_path, wait_time=5, force_retry=False, specific_file=None)] *)
Definition process_videos (fs : FileSystem) (video_path : Path) (wait_time : Q)
    (force_retry : bool) (specific_file : option string) : M (list Result) :=
  if fs_is_file fs video_path then
    result <- analyze_video fs video_path 3 ;;
    ret (if dict_truthy result then [result] else [])
  else if fs_is_dir fs video_path then
    let video_files := collect_video_files (fs_glob fs video_path) specific_file in
    let (video_files, previous_results) := check_previous fs force_retry video_files in
    results <- process_each fs video_files wait_time [] ;;
    ret (results ++ previous_results)
  else ret [].

End Pipeline.

Notation "x <- m ;; k" := (bind m (fun x => k))
  (at level 100, m at next level, right associativity).

(** ** format_output, csv format *)

(** First pass over the response lines: the two literal prefixes. *)
Fixpoint parse_strict (response_lines : list string) (description tags : string)
    : string * string :=
  match response_lines with
  | [] => (description, tags)
  | line :: response_lines =>
      let line := strip line in
      if startswith line "- Description:" then
        parse_strict response_lines (strip (remove_all line "- Description:")) tags
      else if startswith line "- Tags:" then
        parse_strict response_lines description (strip (remove_all line "- Tags:"))
      else parse_strict response_lines description tags
  end.

(** Second pass, on the lower-cased lines: the markers anywhere in the line. *)
Fixpoint parse_loose (response_lines : list string) (description tags : string)
    : string * string :=
  match response_lines with
  | [] => (description, tags)
  | line :: response_lines =>
      let line := lower (strip line) in
      if contains line "description:" then
        match split1 line "description:" !! 1%nat with
        | Some part => parse_loose response_lines (strip part) tags
        | None => parse_loose response_lines description tags
        end
      else if contains line "tags:" then
        match split1 line "tags:" !! 1%nat with
        | Some part => parse_loose response_lines description (strip part)
        | None => parse_loose response_lines description tags
        end
      else parse_loose response_lines description tags
  end.

(** The row written for one result; [None] stands for a [KeyError]. *)
Definition csv_row (result : Result) : option (list string) :=
  if has_key "error" result then
    match result !! "filename", result !! "error" with
    | Some filename, Some message => Some [filename; "ERROR: " +:+ message; ""]
    | _, _ => None
    end
  else
    match result !! "response", result !! "filename" with
    | Some response, Some filename =>
        let response_lines := split_lines (strip response) in
        let (description, tags) := parse_strict response_lines "" "" in
        let (description, tags) :=
          if negb (truthy description) && negb (truthy tags)
          then parse_loose response_lines description tags
          else (description, tags) in
        Some [filename; description; tags]
    | _, _ => None
    end.

(** The data rows handed to [writer.writerow], one per result. *)
Fixpoint csv_rows (results : list Result) : option (list (list string)) :=
  match results with
  | [] => Some []
  | result :: results =>
      match csv_row result, csv_rows results with
      | Some row, Some rows => Some (row :: rows)
      | _, _ => None
      end
  end.

Definition csv_header : list string := ["Filename"; "Description"; "Tags"].

(** The writer's minimal quoting: a field is quoted when it holds the
    delimiter, the quote character or a line-terminator character, and its
    quote characters are doubled. *)
Fixpoint double_quotes (s : string) : string :=
  match s with
  | EmptyString => EmptyString
  | String c s' =>
      if Ascii.eqb c "034"%char then String c (String c (double_quotes s'))
      else String c (double_quotes s')
  end.

Definition needs_quotes (field : string) : bool :=
  contains field "," || contains field dquote || contains field cr || contains field nl.

Definition quote_field (field : string) : string :=
  if needs_quotes field then dquote +:+ double_quotes field +:+ dquote else field.

(** [writer.writerow(row)]; a row that is one empty field is written quoted. *)
Definition writerow (row : list string) : string :=
  match row with
  | [EmptyString] => dquote +:+ dquote +:+ cr +:+ nl
  | _ => join "," (quote_field <$> row) +:+ cr +:+ nl
  end.

(** [format_output(results, 'csv')] *)
Definition format_output_csv (results : list Result) : option string :=
  match csv_rows results with
  | Some rows => Some (String.concat "" (writerow <$> csv_header :: rows))
  | None => None
  end.

(** ** A scripted client

    A world that answers each kind of call from a list, in order, and whose
    clock moves only when the program sleeps. *)

Record Script : Type := {
  sc_clock : Q;
  sc_uploads : list (Exn + FileObj);
  sc_files : list (Exn + FileObj);
  sc_texts : list (Exn + option string);
  sc_random : list Q
}.

Definition script_upload (_ : Path) (w : Script) : (Exn + FileObj) * Script :=
  match sc_uploads w with
  | r :: rest => (r, {| sc_clock := sc_clock w; sc_uploads := rest; sc_files := sc_files w;
                        sc_texts := sc_texts w; sc_random := sc_random w |})
  | [] => (inl "no answer", w)
  end.

Definition script_get_file (_ : string) (w : Script) : (Exn + FileObj) * Script :=
  match sc_files w with
  | r :: rest => (r, {| sc_clock := sc_clock w; sc_uploads := sc_uploads w; sc_files := rest;
                        sc_texts := sc_texts w; sc_random := sc_random w |})
  | [] => (inl "no answer", w)
  end.

Definition script_generate (_ : string) (w : Script) : (Exn + option string) * Script :=
  match sc_texts w with
  | r :: rest => (r, {| sc_clock := sc_clock w; sc_uploads := sc_uploads w; sc_files := sc_files w;
                        sc_texts := rest; sc_random := sc_random w |})
  | [] => (inl "no answer", w)
  end.

Definition script_sleep (d : Q) (w : Script) : Script :=
  {| sc_clock := (sc_clock w + d)%Q; sc_uploads := sc_uploads w; sc_files := sc_files w;
     sc_texts := sc_texts w; sc_random := sc_random w |}.

(** A scripted draw counts only when it lies in the unit interval. *)
Definition unit_draw (q : Q) : Q :=
  if Qlt_le_dec q 0 then 0%Q else if Qlt_le_dec q 1 then q else 0%Q.

Definition script_random (w : Script) : Q * Script :=
  match sc_random w with
  | q :: rest => (unit_draw q, {| sc_clock := sc_clock w; sc_uploads := sc_uploads w;
                                  sc_files := sc_files w; sc_texts := sc_texts w;
                                  sc_random := rest |})
  | [] => (0%Q, w)
  end.

(** ** Specifications the code is compared with *)

(** The upload loop as the specification describes it, from the state where
    [n] tries have failed: a try that succeeds ends the run with its handle; a
    failed try is followed by the backoff sleep and another try while
    retries remain; the failure of the last allowed try ends the run with
    nothing. *)
Inductive upload_spec (p : Path) (max_retries : nat) (base_delay : Q)
    : nat -> list Event -> option FileObj -> Prop :=
  | upload_succeeds n file_obj :
      upload_spec p max_retries base_delay n [EvUpload p (inr file_obj)] (Some file_obj)
  | upload_exhausted n e :
      n = max_retries ->
      upload_spec p max_retries base_delay n [EvUpload p (inl e)] None
  | upload_retries n e jitter events r :
      (n < max_retries)%nat ->
      (0 <= jitter)%Q -> (jitter <= 1)%Q ->
      upload_spec p max_retries base_delay (S n) events r ->
      upload_spec p max_retries base_delay n
        (EvUpload p (inl e) :: EvSleep (backoff base_delay (S n) jitter) :: events) r.

(** Number of upload tries in a log. *)
Fixpoint upload_tries (events : list Event) : nat :=
  match events with
  | [] => 0
  | EvUpload _ _ :: events => S (upload_tries events)
  | _ :: events => upload_tries events
  end.

(** The delays slept in a log, in order. *)
Fixpoint sleeps (events : list Event) : list Q :=
  match events with
  | [] => []
  | EvSleep d :: events => d :: sleeps events
  | _ :: events => sleeps events
  end.

(** The paths uploaded in a log, in order. *)
Fixpoint uploaded (events : list Event) : list Path :=
  match events with
  | [] => []
  | EvUpload p _ :: events => p :: uploaded events
  | _ :: events => uploaded events
  end.

(** The poller as the specification's state machine, as a relation between
    the calls made after the start time was read and the outcome: each round
    reads the clock first; past [max_wait_time] it stops there, whatever the
    remote state; otherwise it queries once, and stops on "ACTIVE", on
    "FAILED" and on an exception, or sleeps [check_interval] and goes round
    again (a negative [check_interval] makes that sleep raise, which ends the
    wait like an exception of the query). *)
Inductive poll_spec (n : string) (max_wait_time check_interval start_time : Q)
    : list Event -> PollOutcome -> Prop :=
  | poll_timed_out t :
      (max_wait_time < t - start_time)%Q ->
      poll_spec n max_wait_time check_interval start_time
        [EvClock t] (TimedOut (t - start_time))
  | poll_active t f :
      (t - start_time <= max_wait_time)%Q ->
      file_state f = "ACTIVE" ->
      poll_spec n max_wait_time check_interval start_time
        [EvClock t; EvGetFile n (inr f)] (Ready f)
  | poll_failed t f :
      (t - start_time <= max_wait_time)%Q ->
      file_state f = "FAILED" ->
      poll_spec n max_wait_time check_interval start_time
        [EvClock t; EvGetFile n (inr f)] ProcessingFailed
  | poll_raised t e :
      (t - start_time <= max_wait_time)%Q ->
      poll_spec n max_wait_time check_interval start_time
        [EvClock t; EvGetFile n (inl e)] (QueryError e)
  | poll_sleep_raised t f :
      (t - start_time <= max_wait_time)%Q ->
      file_state f <> "ACTIVE" -> file_state f <> "FAILED" ->
      (check_interval < 0)%Q ->
      poll_spec n max_wait_time check_interval start_time
        [EvClock t; EvGetFile n (inr f)] (QueryError "sleep length must be non-negative")
  | poll_again t f events o :
      (t - start_time <= max_wait_time)%Q ->
      file_state f <> "ACTIVE" -> file_state f <> "FAILED" ->
      (0 <= check_interval)%Q ->
      poll_spec n max_wait_time check_interval start_time events o ->
      poll_spec n max_wait_time check_interval start_time
        (EvClock t :: EvGetFile n (inr f) :: EvSleep check_interval :: events) o.


(** The result a row of [results.csv] stands for, when its first three
    columns are all filled in. *)
Definition populated (row : list string) : option Result :=
  match row with
  | filename :: description :: tags :: _ =>
      if truthy filename && (truthy description && truthy tags)
      then Some (reconstituted filename description tags)
      else None
  | _ => None
  end.

(** The filename of a row whose first three columns are all filled in. *)
Definition populated_name (row : list string) : option string :=
  match row with
  | filename :: description :: tags :: _ =>
      if truthy filename && (truthy description && truthy tags) then Some filename else None
  | _ => None
  end.






(** The names a previous results file marks as processed. *)
Definition skip_set (rows : list (list string)) : gset string :=
  list_to_set (omap populated_name rows).

(** What a run leaves behind, for inspection: the filenames of its results
    and the paths it uploaded, both in order. *)
Definition run_summary {World : Type} (outcome : option (list Result * @State World))
    : option (list (option string) * list Path) :=
  match outcome with
  | Some (results, s) => Some ((fun r : Result => r !! "filename") <$> results, uploaded (log s))
  | None => None
  end.

(** ** The log as a record of what the client answered *)

(** [answers w events w'] holds when [events] is what really went on between
    the worlds [w] and [w']: every call in it was made on the world as it
    stood, holds the answer the client gave, and left the world the client
    left; a draw from the random source moves the world without an entry. *)
Inductive answers {World : Type} {client : Client World}
    : World -> list Event -> World -> Prop :=
  | answers_done w : answers w [] w
  | answers_upload w p events w' :
      answers (upload_file p w).2 events w' ->
      answers w (EvUpload p (upload_file p w).1 :: events) w'
  | answers_get_file w n events w' :
      answers (get_file n w).2 events w' ->
      answers w (EvGetFile n (get_file n w).1 :: events) w'
  | answers_generate w uri events w' :
      answers (generate_content uri w).2 events w' ->
      answers w (EvGenerate uri (generate_content uri w).1 :: events) w'
  | answers_sleep w d events w' :
      (0 <= d)%Q ->
      answers (time_sleep d w) events w' ->
      answers w (EvSleep d :: events) w'
  | answers_clock w events w' :
      answers w events w' ->
      answers w (EvClock (clock w) :: events) w'
  | answers_draw w events w' :
      answers (random_random w).2 events w' ->
      answers w events w'.

(** A computation is honest when the entries it adds to the log are what the
    client answered on the way from the world it started in to the world it
    ends in. *)
Definition honest {World : Type} {client : Client World} {A : Type} (m : M A) : Prop :=
  forall (s : State) (a : A) (s' : State),
    m s = Some (a, s') ->
    exists events, log s' = log s ++ events /\ answers (world s) events (world s').

(** The parameters of an upload run for which every delay is one the program
    can compute and sleep: the base delay is not negative, [2 ** retry_count]
    converts to a float, and no delay goes beyond 2^30 seconds. *)
Definition backoff_in_range (base_delay : Q) (max_retries : nat) : Prop :=
  (0 <= base_delay)%Q /\ (max_retries < 1024)%nat /\
  (base_delay * inject_Z (2 ^ Z.of_nat max_retries) <= inject_Z (2 ^ 30))%Q.

(** ** Concrete inputs used below *)

Definition sample_file (state : string) : FileObj :=
  {| file_name := "files/abc"; file_uri := "https://files/abc"; file_state := state |}.

(** A directory [d] with two videos, every file 100 bytes long, and a given
    media type table and previous results file. *)
Definition sample_fs (mime : option string) (csv : option (list ReadEvent)) : FileSystem :=
  {| fs_exists := fun _ => true;
     fs_is_file := fun p => negb (bool_decide (p = ["d"]));
     fs_is_dir := fun p => bool_decide (p = ["d"]);
     fs_size := fun _ => 100%Z;
     fs_glob := fun _ => [["d"; "video1.mp4"]; ["d"; "video2.mp4"]];
     guess_type := fun _ => mime;
     results_csv := csv |}.

Definition sample_script (uploads files : list (Exn + FileObj))
    (texts : list (Exn + option string)) (draws : list Q) : Script :=
  {| sc_clock := 0; sc_uploads := uploads; sc_files := files; sc_texts := texts;
     sc_random := draws |}.

Definition start_state (w : Script) : State := mkState w [].

(** A response in the expected format. *)
Definition good_text : string :=
  "- Description: A calm lake." +:+ nl +:+ "- Tags: [calm, lake]".

Definition upper_text : string := "DESCRIPTION: A dog" +:+ nl +:+ "TAGS: [dog]".

(** A remote side on which every upload, status query and generation
    succeeds at once, for two files. *)
Definition smooth_script : Script :=
  sample_script [inr (sample_file "PROCESSING"); inr (sample_file "PROCESSING")]
    [inr (sample_file "ACTIVE"); inr (sample_file "ACTIVE")]
    [inr (Some good_text); inr (Some good_text)] [].

(** A remote side that keeps answering in upper case. *)
Definition upper_script : Script :=
  sample_script [inr (sample_file "PROCESSING")] [inr (sample_file "ACTIVE")]
    [inr (Some upper_text); inr (Some upper_text); inr (Some upper_text);
     inr (Some upper_text)] [].

(** A remote side on which every upload fails, with the draws 3/4, 0, 0. *)
Definition failing_script : Script :=
  sample_script [inl "boom"; inl "boom"; inl "boom"; inl "boom"] [] [] [3 # 4; 0; 0]%Q.

(** A remote side that reports the file ready at the second query. *)
Definition slow_script : Script :=
  sample_script [] [inr (sample_file "PROCESSING"); inr (sample_file "ACTIVE")] [] [].


Definition video1_row : list string := ["video1.mp4"; "A calm lake."; "[calm, lake]"].

(** Previous results: well formed; and cut short by a reader error after the
    first data row. *)
Definition csv_good : list ReadEvent := [Row csv_header; Row video1_row].
Definition csv_broken : list ReadEvent :=
  [Row csv_header; Row video1_row; ReadError "field larger than field limit (131072)"].

(** ** More specifications: the generation loop and the logs *)

(** What one generation call comes to: the exception it raised, or how the
    [try] body ended on its answer. *)
Definition attempt_outcome (r : Exn + option string) : Exn + Attempt :=
  match r with
  | inl e => inl e
  | inr response => handle_response response
  end.

(** The generation loop as a relation between the calls made from the state
    where [n] attempts have failed and the result returned: an attempt that
    yields a text ends the loop with a response; an empty answer or an
    exception is followed by the backoff sleep and a new attempt while
    retries remain, and ends the loop with an error when none does. *)
Inductive generate_spec (filename uri : string) (max_retries : nat)
    : nat -> list Event -> Result -> Prop :=
  | generate_done n r text :
      attempt_outcome r = inr (Return text) ->
      generate_spec filename uri max_retries n [EvGenerate uri r]
        (response_result filename text)
  | generate_empty_last n r :
      attempt_outcome r = inr EmptyResponse ->
      n = max_retries ->
      generate_spec filename uri max_retries n [EvGenerate uri r]
        (error_result filename "Empty response received after multiple attempts")
  | generate_raised_last n r message :
      attempt_outcome r = inl message ->
      n = max_retries ->
      generate_spec filename uri max_retries n [EvGenerate uri r]
        (error_result filename message)
  | generate_again n r jitter events result :
      (forall text, attempt_outcome r <> inr (Return text)) ->
      (n < max_retries)%nat ->
      (0 <= jitter)%Q -> (jitter <= 1)%Q ->
      generate_spec filename uri max_retries (S n) events result ->
      generate_spec filename uri max_retries n
        (EvGenerate uri r :: EvSleep (backoff 2 (S n) jitter) :: events) result.

(** Number of generation calls and of status queries in a log. *)
Fixpoint generate_calls (events : list Event) : nat :=
  match events with
  | [] => 0
  | EvGenerate _ _ :: events => S (generate_calls events)
  | _ :: events => generate_calls events
  end.

Fixpoint status_queries (events : list Event) : nat :=
  match events with
  | [] => 0
  | EvGetFile _ _ :: events => S (status_queries events)
  | _ :: events => status_queries events
  end.

(** Time slept in a log, in seconds. *)
Definition total_sleep (events : list Event) : Q :=
  fold_right Qplus 0%Q (sleeps events).

(** ** format_output, txt format *)

(** The separator line, ["-" * 80]. *)
Definition separator : string := String.concat "" (replicate 80 "-").

(** The [for result in results] loop of the txt format, on the text built so
    far; [None] stands for a [KeyError]. *)
Fixpoint txt_blocks (results : list Result) (output : string) : option string :=
  match results with
  | [] => Some output
  | result :: results =>
      match result !! "filename" with
      | None => None
      | Some filename =>
          let output := output +:+ ("File: " +:+ filename +:+ nl) in
          if has_key "error" result then
            match result !! "error" with
            | Some message =>
                txt_blocks results
                  ((output +:+ ("Error: " +:+ message +:+ nl)) +:+ (separator +:+ nl))
            | None => None
            end
          else
            match result !! "response" with
            | Some response =>
                txt_blocks results ((output +:+ (response +:+ nl)) +:+ (separator +:+ nl))
            | None => None
            end
      end
  end.

(** [format_output(results, 'txt')] *)
Definition format_output_txt (results : list Result) : option string :=
  txt_blocks results "".

(** The block the txt format writes for one result. *)
Definition txt_block (result : Result) : option string := txt_blocks [result] "".

(** ** The per-file analysis as a sequence of stages *)

(** The calls of one analysis and its result: nothing at all for a file that
    fails the validation; the upload run alone when it yields no handle; the
    upload run and the wait, on the name of the uploaded handle, when the
    wait yields no file; and otherwise the upload run, the wait, and the
    generation loop on the URI of the file the wait returned. *)
Inductive analyze_spec (fs : FileSystem) (video_path : Path) (max_retries : nat)
    : list Event -> Result -> Prop :=
  | analyze_invalid :
      is_valid_video_file fs video_path 10 = false ->
      analyze_spec fs video_path max_retries []
        (error_result (name video_path) "Invalid or unsupported video file")
  | analyze_upload_failed uploads :
      is_valid_video_file fs video_path 10 = true ->
      upload_spec video_path 3 2 0 uploads None ->
      analyze_spec fs video_path max_retries uploads
        (error_result (name video_path) "Failed to upload video to File API")
  | analyze_not_ready uploads file_obj start_time polls o :
      is_valid_video_file fs video_path 10 = true ->
      upload_spec video_path 3 2 0 uploads (Some file_obj) ->
      poll_spec (file_name file_obj) 600 10 start_time polls o ->
      returned o = None ->
      analyze_spec fs video_path max_retries (uploads ++ EvClock start_time :: polls)
        (error_result (name video_path) "Video processing failed or timed out")
  | analyze_generated uploads file_obj start_time polls processed_file generations r :
      is_valid_video_file fs video_path 10 = true ->
      upload_spec video_path 3 2 0 uploads (Some file_obj) ->
      poll_spec (file_name file_obj) 600 10 start_time polls (Ready processed_file) ->
      generate_spec (name video_path) (file_uri processed_file) max_retries 0 generations r ->
      analyze_spec fs video_path max_retries
        (uploads ++ EvClock start_time :: polls ++ generations) r.


(** ** The batch loop as a sequence of analyses *)


Lemma unit_draw_range (q : Q) : (0 <= unit_draw q)%Q /\ (unit_draw q <= 1)%Q.
Proof.
  unfold unit_draw.
  destruct (Qlt_le_dec q 0) as [Hneg | Hpos]; [split; lra |].
  destruct (Qlt_le_dec q 1) as [Hlt | Hge]; split; lra.
Qed.

Lemma script_clock_sleep (d : Q) (w : Script) :
  (sc_clock w + d <= sc_clock (script_sleep d w))%Q.
Proof. simpl. lra. Qed.

Lemma script_clock_get_file (n : string) (w : Script) :
  (sc_clock w <= sc_clock (snd (script_get_file n w)))%Q.
Proof. unfold script_get_file. destruct (sc_files w); simpl; lra. Qed.

Lemma script_random_range (w : Script) :
  (0 <= fst (script_random w))%Q /\ (fst (script_random w) <= 1)%Q.
Proof.
  unfold script_random. destruct (sc_random w) as [| q rest]; simpl.
  - split; lra.
  - apply unit_draw_range.
Qed.

#[export] Instance scripted : Client Script := {|
  upload_file := script_upload;
  get_file := script_get_file;
  generate_content := script_generate;
  clock := sc_clock;
  time_sleep := script_sleep;
  random_random := script_random;
  clock_sleep := script_clock_sleep;
  clock_get_file := script_clock_get_file;
  random_range := script_random_range
|}.

(** * Facts *)

(** ** Strings *)

#[local] Arguments startswith : simpl never.
#[local] Arguments contains : simpl never.
#[local] Arguments strip : simpl never.
#[local] Arguments lower : simpl never.

Lemma contains_nil (p : string) : contains "" p = startswith "" p.
Proof. unfold contains. apply orb_false_r. Qed.

Lemma contains_cons (c : ascii) (s p : string) :
  contains (String c s) p = startswith (String c s) p || contains s p.
Proof. reflexivity. Qed.

Lemma split_once_cons (c : ascii) (s sep : string) :
  split_once (String c s) sep =
  if startswith (String c s) sep
  then Some ("", drop_chars (String.length sep) (String c s))
  else match split_once s sep with
       | Some (a, b) => Some (String c a, b)
       | None => None
       end.
Proof. reflexivity. Qed.

Lemma split_once_nil (sep : string) :
  split_once "" sep = if startswith "" sep then Some ("", drop_chars (String.length sep) "") else None.
Proof. reflexivity. Qed.



Lemma split_once_contains (s sep : string) (a b : string) :
  split_once s sep = Some (a, b) -> contains s sep = true.
Proof.
  revert a b. induction s as [| c s IH]; intros a b Hs.
  - rewrite split_once_nil in Hs. rewrite contains_nil.
    destruct (startswith "" sep); [done | discriminate].
  - rewrite split_once_cons in Hs. rewrite contains_cons.
    destruct (startswith (String c s) sep); [done |].
    destruct (split_once s sep) as [[a' b'] |] eqn:Hr; [| discriminate].
    eapply IH. reflexivity.
Qed.


Lemma split1_missing (s sep : string) :
  contains s sep = false -> split1 s sep !! 1%nat = None.
Proof.
  intros H. unfold split1.
  destruct (split_once s sep) as [[a b] |] eqn:Hs; [| reflexivity].
  apply split_once_contains in Hs. congruence.
Qed.


Lemma append_cons (x : ascii) (a b : string) : String x a +:+ b = String x (a +:+ b).
Proof. reflexivity. Qed.

Lemma append_assoc (a b c : string) : (a +:+ b) +:+ c = a +:+ (b +:+ c).
Proof.
  induction a as [| x a IH]; [reflexivity |].
  rewrite !append_cons, IH. reflexivity.
Qed.

Lemma append_empty_r (a : string) : a +:+ "" = a.
Proof.
  induction a as [| x a IH]; [reflexivity |].
  rewrite append_cons, IH. reflexivity.
Qed.

Lemma truthy_true (s : string) : truthy s = true <-> s <> "".
Proof. destruct s; simpl; split; congruence. Qed.

Lemma truthy_eqb (s : string) : negb (truthy s) = (s =? "").
Proof. destruct s; reflexivity. Qed.

(** ** The file validator *)




(** ** The two filters of a directory run *)

Lemma elem_of_collect_video_files (paths : list Path) (specific_file : option string) (f : Path) :
  f ∈ collect_video_files paths specific_file <->
  f ∈ paths /\ is_video_extension (lower (suffix f)) = true /\
  match specific_file with
  | Some specific => specific = "" \/ name f = specific
  | None => True
  end.
Proof.
  induction paths as [| p paths IH]; simpl.
  - split; [intros H | intros [H _]]; inversion H.
  - assert (Hskip : f ∈ collect_video_files paths specific_file ->
        f ∈ p :: paths /\ is_video_extension (lower (suffix f)) = true /\
        match specific_file with
        | Some specific => specific = "" \/ name f = specific
        | None => True
        end).
    { intros H. apply IH in H as (? & ? & ?). split; [by right | done]. }
    destruct (is_video_extension (lower (suffix p))) eqn:Hext.
    + destruct specific_file as [specific |].
      * destruct (truthy specific && negb (name p =? specific)) eqn:Hsel.
        -- split; [exact Hskip |]. intros (Hin & He & Hs).
           apply IH. split; [| done].
           apply elem_of_cons in Hin as [-> | Hin]; [| done].
           apply andb_true_iff in Hsel as [Ht Hn].
           apply negb_true_iff, String.eqb_neq in Hn.
           apply truthy_true in Ht. destruct Hs; congruence.
        -- rewrite elem_of_cons, IH. split.
           ++ intros [-> | (? & ? & ?)]; [| split; [by right | done]].
              split; [by left |]. split; [done |].
              destruct specific as [| c sp]; [by left |]. simpl in Hsel.
              apply negb_false_iff, String.eqb_eq in Hsel. by right.
           ++ intros (Hin & ? & ?).
              apply elem_of_cons in Hin as [-> | Hin]; [by left | by right].
      * rewrite elem_of_cons, IH. split.
        -- intros [-> | (? & ? & ?)]; [| split; [by right | done]].
           split; [by left | done].
        -- intros (Hin & ? & ?).
           apply elem_of_cons in Hin as [-> | Hin]; [by left | by right].
    + split; [exact Hskip |]. intros (Hin & He & Hs). apply IH.
      apply elem_of_cons in Hin as [-> | Hin]; [congruence | done].
Qed.

Lemma elem_of_remove_processed (skip : gset string) (video_files : list Path) (f : Path) :
  f ∈ remove_processed skip video_files <-> f ∈ video_files /\ name f ∉ skip.
Proof.
  unfold remove_processed. rewrite !list_elem_of_In, filter_In.
  rewrite negb_true_iff, bool_decide_eq_false. reflexivity.
Qed.

(** ** The tabular formatter *)

Lemma csv_row_error (filename message : string) :
  csv_row (error_result filename message) = Some [filename; "ERROR: " +:+ message; ""].
Proof.
  unfold csv_row, has_key, error_result.
  rewrite lookup_insert_ne, lookup_singleton_eq, lookup_insert_eq by done.
  rewrite bool_decide_eq_true_2 by eauto. reflexivity.
Qed.

Lemma csv_row_response (filename response : string) :
  csv_row (response_result filename response) =
  Some (let response_lines := split_lines (strip response) in
        let (description, tags) := parse_strict response_lines "" "" in
        let (description, tags) :=
          if negb (truthy description) && negb (truthy tags)
          then parse_loose response_lines description tags
          else (description, tags) in
        [filename; description; tags]).
Proof.
  unfold csv_row, has_key, response_result.
  rewrite lookup_insert_ne, lookup_singleton_ne, lookup_insert_eq by done.
  rewrite bool_decide_eq_false_2 by (intros [? ?]; discriminate).
  rewrite lookup_insert_ne, lookup_singleton_eq by done. cbv zeta.
  destruct (parse_strict (split_lines (strip response)) "" "") as [description tags].
  destruct (if negb (truthy description) && negb (truthy tags)
            then parse_loose (split_lines (strip response)) description tags
            else (description, tags)) as [description' tags'].
  reflexivity.
Qed.

(** C3.  For the success result of [f1.mp4] whose response is the two
    canonical lines "- Description: A calm lake." and
    "- Tags: [calm, lake, nature]", followed by the error result of [f2.mp4]
    with message "timeout", the formatter writes the header row and exactly
    these two data rows; the text it returns is those three rows as the csv
    writer renders them. *)
Theorem format_output_csv_two_rows :
  csv_rows [response_result "f1.mp4"
              ("- Description: A calm lake." +:+ nl +:+ "- Tags: [calm, lake, nature]");
            error_result "f2.mp4" "timeout"]
  = Some [["f1.mp4"; "A calm lake."; "[calm, lake, nature]"];
          ["f2.mp4"; "ERROR: timeout"; ""]] /\
  format_output_csv [response_result "f1.mp4"
                       ("- Description: A calm lake." +:+ nl +:+ "- Tags: [calm, lake, nature]");
                     error_result "f2.mp4" "timeout"]
  = Some ("Filename,Description,Tags" +:+ cr +:+ nl
          +:+ "f1.mp4,A calm lake.," +:+ dquote +:+ "[calm, lake, nature]" +:+ dquote
          +:+ cr +:+ nl
          +:+ "f2.mp4,ERROR: timeout," +:+ cr +:+ nl).
Proof.
  assert (Hrows :
    csv_rows [response_result "f1.mp4"
                ("- Description: A calm lake." +:+ nl +:+ "- Tags: [calm, lake, nature]");
              error_result "f2.mp4" "timeout"]
    = Some [["f1.mp4"; "A calm lake."; "[calm, lake, nature]"];
            ["f2.mp4"; "ERROR: timeout"; ""]]).
  { cbn [csv_rows]. rewrite csv_row_response, csv_row_error. reflexivity. }
  split; [exact Hrows |].
  unfold format_output_csv. rewrite Hrows. reflexivity.
Qed.

(** ** The upload client *)

Section Facts.

Context {World : Type} {client : Client World}.

Lemma uniform_unit (s : State) :
  exists jitter w,
    uniform 0 1 s = Some (jitter, mkState w (log s)) /\ (0 <= jitter)%Q /\ (jitter <= 1)%Q.
Proof.
  unfold uniform. pose proof (random_range (world s)) as [H0 H1].
  destruct (random_random (world s)) as [r w]. simpl in H0, H1.
  exists (0 + (1 - 0) * r)%Q, w. split; [reflexivity |]. split; lra.
Qed.


Lemma uniform_log (a b : Q) (s : State) :
  exists jitter w, uniform a b s = Some (jitter, mkState w (log s)).
Proof. unfold uniform. destruct (random_random (world s)) as [r w]. eauto. Qed.

Lemma do_sleep_returns (d : Q) (s : State) :
  (0 <= d)%Q ->
  do_sleep d s = Some (tt, mkState (time_sleep d (world s)) (log s ++ [EvSleep d])).
Proof.
  intros Hd. unfold do_sleep. destruct (Qlt_le_dec d 0) as [Hneg | _]; [lra | reflexivity].
Qed.

Lemma backoff_nonneg (base_delay : Q) (retry_count : nat) (jitter : Q) :
  (0 <= base_delay)%Q -> (0 <= jitter)%Q -> (0 <= backoff base_delay retry_count jitter)%Q.
Proof.
  intros Hbase Hjitter. unfold backoff.
  assert (Hpow : (0 <= inject_Z (2 ^ Z.of_nat retry_count))%Q).
  { change 0%Q with (inject_Z 0). rewrite <- Zle_Qle. apply Z.pow_nonneg. lia. }
  pose proof (Qmult_le_0_compat _ _ Hbase Hpow). lra.
Qed.

Lemma upload_loop_spec (p : Path) (max_retries : nat) (base_delay : Q) (fuel n : nat) (s : State) :
  (0 <= base_delay)%Q ->
  (n <= max_retries)%nat -> (max_retries - n < fuel)%nat ->
  exists r s' events,
    upload_loop fuel p max_retries base_delay n s = Some (r, s') /\
    log s' = log s ++ events /\
    upload_spec p max_retries base_delay n events r.
Proof.
  intros Hbase.
  revert n s. induction fuel as [| fuel IH]; intros n s Hn Hfuel; [lia |].
  cbn [upload_loop]. destruct (Nat.leb_spec n max_retries) as [_ | Hgt]; [| lia].
  unfold bind at 1, do_upload, call.
  destruct (upload_file p (world s)) as [[e | file_obj] w].
  - destruct (Nat.leb_spec (S n) max_retries) as [Hle | Hlast].
    + set (s1 := mkState w (log s ++ [EvUpload p (inl e)])).
      destruct (uniform_unit s1) as (jitter & w2 & Hu & H0 & H1).
      unfold bind at 1. rewrite Hu. unfold bind at 1.
      rewrite do_sleep_returns by (apply backoff_nonneg; assumption). cbn [world log].
      set (s3 := mkState _ _).
      destruct (IH (S n) s3) as (r & s' & events & Hrun & Hlog & Hspec); [lia | lia |].
      exists r, s', (EvUpload p (inl e) :: EvSleep (backoff base_delay (S n) jitter) :: events).
      split; [exact Hrun |]. split.
      * rewrite Hlog. subst s3 s1. cbn [log]. rewrite <- !app_assoc. reflexivity.
      * apply upload_retries; [lia | exact H0 | exact H1 | exact Hspec].
    + exists None, (mkState w (log s ++ [EvUpload p (inl e)])), [EvUpload p (inl e)].
      split; [reflexivity |]. split; [reflexivity |].
      apply upload_exhausted. lia.
  - exists (Some file_obj), (mkState w (log s ++ [EvUpload p (inr file_obj)])),
      [EvUpload p (inr file_obj)].
    split; [reflexivity |]. split; [reflexivity |]. apply upload_succeeds.
Qed.

Lemma upload_spec_tries (p : Path) (max_retries : nat) (base_delay : Q) (n : nat)
    (events : list Event) (r : option FileObj) :
  upload_spec p max_retries base_delay n events r ->
  (n <= max_retries)%nat ->
  (1 <= upload_tries events)%nat /\
  (n + upload_tries events <= max_retries + 1)%nat /\
  (r = None -> (n + upload_tries events = max_retries + 1)%nat).
Proof.
  induction 1 as [n f | n e Hn | n e j events r Hn H0 H1 Hspec IH]; intros Hle; cbn [upload_tries].
  - split; [lia |]. split; [lia | discriminate].
  - split; [lia |]. split; lia.
  - destruct IH as (Hone & Hmost & Hnone); [lia |].
    split; [lia |]. split; [lia |]. intros Hr. specialize (Hnone Hr). lia.
Qed.


Lemma upload_run (video_path : Path) (max_retries : nat) (base_delay : Q) (s : State) :
  (0 <= base_delay)%Q ->
  exists r s' events,
    upload_video_to_file_api video_path max_retries base_delay s = Some (r, s') /\
    log s' = log s ++ events /\
    upload_spec video_path max_retries base_delay 0 events r.
Proof. intros Hbase. unfold upload_video_to_file_api. apply upload_loop_spec; [exact Hbase | lia | lia]. Qed.

Lemma upload_spec_sleeps (p : Path) (max_retries : nat) (base_delay : Q) (n : nat)
    (events : list Event) (r : option FileObj) :
  upload_spec p max_retries base_delay n events r ->
  forall (i : nat) (d : Q), sleeps events !! i = Some d ->
  exists jitter, (0 <= jitter)%Q /\ (jitter <= 1)%Q /\ d = backoff base_delay (S (n + i)) jitter.
Proof.
  induction 1 as [n f | n e Hn | n e j events r Hn H0 H1 Hspec IH]; intros i d Hd;
    cbn [sleeps] in Hd; [discriminate | discriminate |].
  destruct i as [| i]; cbn in Hd.
  - injection Hd as <-. exists j. rewrite Nat.add_0_r. auto.
  - destruct (IH i d Hd) as (j' & ? & ? & ->). exists j'.
    replace (S (n + S i)) with (S (S n + i)) by lia. auto.
Qed.

Lemma pow2_retry_bounds (i j : nat) :
  (i < j)%nat ->
  (2 <= inject_Z (2 ^ Z.of_nat (S i)))%Q /\
  (2 * inject_Z (2 ^ Z.of_nat (S i)) <= inject_Z (2 ^ Z.of_nat (S j)))%Q.
Proof.
  intros Hij. split.
  - change 2%Q with (inject_Z 2). rewrite <- Zle_Qle.
    rewrite Nat2Z.inj_succ, Z.pow_succ_r by lia.
    assert (0 < 2 ^ Z.of_nat i)%Z by (apply Z.pow_pos_nonneg; lia). lia.
  - change 2%Q with (inject_Z 2). rewrite <- inject_Z_mult, <- Zle_Qle.
    rewrite <- Z.pow_succ_r by lia. apply Z.pow_le_mono_r; lia.
Qed.


(** ** The log is what the client answered *)

Lemma answers_app (w : World) (a : list Event) (w1 : World) (b : list Event) (w2 : World) :
  answers w a w1 -> answers w1 b w2 -> answers w (a ++ b) w2.
Proof.
  induction 1 as [w | w p events w' _ IH | w n events w' _ IH | w uri events w' _ IH
                 | w d events w' Hd _ IH | w events w' _ IH | w events w' _ IH];
    intros Hb; cbn [app].
  - exact Hb.
  - apply answers_upload, IH, Hb.
  - apply answers_get_file, IH, Hb.
  - apply answers_generate, IH, Hb.
  - apply answers_sleep; [exact Hd | apply IH, Hb].
  - apply answers_clock, IH, Hb.
  - apply answers_draw, IH, Hb.
Qed.

Lemma answers_calls (w : World) (events : list Event) (w' : World) :
  answers w events w' ->
  (forall p x, EvUpload p x ∈ events -> exists w0, (upload_file p w0).1 = x) /\
  (forall n x, EvGetFile n x ∈ events -> exists w0, (get_file n w0).1 = x) /\
  (forall uri x, EvGenerate uri x ∈ events -> exists w0, (generate_content uri w0).1 = x) /\
  (forall t, EvClock t ∈ events -> exists w0, clock w0 = t).
Proof.
  induction 1 as [w | w p events w' _ IH | w n events w' _ IH | w uri events w' _ IH
                 | w d events w' Hd _ IH | w events w' _ IH | w events w' _ IH];
    [| destruct IH as (IHu & IHg & IHc & IHt) ..]; try (repeat split; assumption).
  - repeat split; intros ? ? Hin || intros ? Hin; apply elem_of_nil in Hin; destruct Hin.
  - repeat split.
    + intros q x Hin. apply elem_of_cons in Hin as [Heq | Hin]; [injection Heq as -> ->; eauto | eauto].
    + intros q x Hin. apply elem_of_cons in Hin as [[=] | Hin]; eauto.
    + intros q x Hin. apply elem_of_cons in Hin as [[=] | Hin]; eauto.
    + intros t Hin. apply elem_of_cons in Hin as [[=] | Hin]; eauto.
  - repeat split.
    + intros q x Hin. apply elem_of_cons in Hin as [[=] | Hin]; eauto.
    + intros q x Hin. apply elem_of_cons in Hin as [Heq | Hin]; [injection Heq as -> ->; eauto | eauto].
    + intros q x Hin. apply elem_of_cons in Hin as [[=] | Hin]; eauto.
    + intros t Hin. apply elem_of_cons in Hin as [[=] | Hin]; eauto.
  - repeat split.
    + intros q x Hin. apply elem_of_cons in Hin as [[=] | Hin]; eauto.
    + intros q x Hin. apply elem_of_cons in Hin as [[=] | Hin]; eauto.
    + intros q x Hin. apply elem_of_cons in Hin as [Heq | Hin]; [injection Heq as -> ->; eauto | eauto].
    + intros t Hin. apply elem_of_cons in Hin as [[=] | Hin]; eauto.
  - repeat split.
    + intros q x Hin. apply elem_of_cons in Hin as [[=] | Hin]; eauto.
    + intros q x Hin. apply elem_of_cons in Hin as [[=] | Hin]; eauto.
    + intros q x Hin. apply elem_of_cons in Hin as [[=] | Hin]; eauto.
    + intros t Hin. apply elem_of_cons in Hin as [[=] | Hin]; eauto.
  - repeat split.
    + intros q x Hin. apply elem_of_cons in Hin as [[=] | Hin]; eauto.
    + intros q x Hin. apply elem_of_cons in Hin as [[=] | Hin]; eauto.
    + intros q x Hin. apply elem_of_cons in Hin as [[=] | Hin]; eauto.
    + intros t Hin. apply elem_of_cons in Hin as [Heq | Hin]; [injection Heq as ->; eauto | eauto].
Qed.

Lemma honest_ret {A : Type} (a : A) : honest (ret a).
Proof.
  intros s a' s' [= <- <-]. exists []. rewrite app_nil_r. split; [reflexivity | constructor].
Qed.

Lemma honest_none {A : Type} (m : M A) : (forall s, m s = None) -> honest m.
Proof. intros Hm s a s' Hrun. rewrite Hm in Hrun. discriminate. Qed.

Lemma honest_bind {A B : Type} (m : M A) (k : A -> M B) :
  honest m -> (forall a, honest (k a)) -> honest (bind m k).
Proof.
  intros Hm Hk s b s' Hrun. unfold bind in Hrun.
  destruct (m s) as [[a s1] |] eqn:Hfirst; [| discriminate].
  destruct (Hm _ _ _ Hfirst) as (ev1 & Hlog1 & Hans1).
  destruct (Hk a _ _ _ Hrun) as (ev2 & Hlog2 & Hans2).
  exists (ev1 ++ ev2). split; [rewrite Hlog2, Hlog1, app_assoc; reflexivity |].
  eapply answers_app; eassumption.
Qed.

Lemma honest_do_upload (p : Path) : honest (do_upload p).
Proof.
  intros s a s'. unfold do_upload, call.
  destruct (upload_file p (world s)) as [x w] eqn:Hcall. intros [= <- <-].
  exists [EvUpload p x]. split; [reflexivity |]. cbn [world].
  replace x with (upload_file p (world s)).1 by (rewrite Hcall; reflexivity).
  apply answers_upload. rewrite Hcall. constructor.
Qed.

Lemma honest_do_get_file (n : string) : honest (do_get_file n).
Proof.
  intros s a s'. unfold do_get_file, call.
  destruct (get_file n (world s)) as [x w] eqn:Hcall. intros [= <- <-].
  exists [EvGetFile n x]. split; [reflexivity |]. cbn [world].
  replace x with (get_file n (world s)).1 by (rewrite Hcall; reflexivity).
  apply answers_get_file. rewrite Hcall. constructor.
Qed.

Lemma honest_do_generate (uri : string) : honest (do_generate uri).
Proof.
  intros s a s'. unfold do_generate, call.
  destruct (generate_content uri (world s)) as [x w] eqn:Hcall. intros [= <- <-].
  exists [EvGenerate uri x]. split; [reflexivity |]. cbn [world].
  replace x with (generate_content uri (world s)).1 by (rewrite Hcall; reflexivity).
  apply answers_generate. rewrite Hcall. constructor.
Qed.

Lemma honest_do_time : honest do_time.
Proof.
  intros s a s'. unfold do_time. intros [= <- <-].
  exists [EvClock (clock (world s))]. split; [reflexivity |]. cbn [world].
  apply answers_clock. constructor.
Qed.

Lemma honest_do_sleep (d : Q) : honest (do_sleep d).
Proof.
  intros s a s'. unfold do_sleep, escapes.
  destruct (Qlt_le_dec d 0) as [Hneg | Hpos]; [discriminate |]. intros [= <- <-].
  exists [EvSleep d]. split; [reflexivity |]. cbn [world].
  apply answers_sleep; [exact Hpos | constructor].
Qed.

Lemma honest_uniform (a b : Q) : honest (uniform a b).
Proof.
  intros s x s'. unfold uniform.
  destruct (random_random (world s)) as [r w] eqn:Hdraw. intros [= <- <-].
  exists []. rewrite app_nil_r. split; [reflexivity |]. cbn [world].
  apply answers_draw. rewrite Hdraw. constructor.
Qed.

Lemma honest_upload_loop (fuel : nat) (p : Path) (max_retries : nat) (base_delay : Q)
    (n : nat) :
  honest (upload_loop fuel p max_retries base_delay n).
Proof.
  revert n. induction fuel as [| fuel IH]; intros n; cbn [upload_loop].
  - apply honest_none. reflexivity.
  - destruct (n <=? max_retries)%nat; [| apply honest_ret].
    apply honest_bind; [apply honest_do_upload |]. intros [e | file_obj]; [| apply honest_ret].
    destruct (S n <=? max_retries)%nat; [| apply honest_ret].
    apply honest_bind; [apply honest_uniform |]. intros jitter.
    apply honest_bind; [apply honest_do_sleep |]. intros _. apply IH.
Qed.

Lemma honest_poll_loop (fuel : nat) (file_obj : FileObj)
    (max_wait_time check_interval start_time : Q) :
  honest (poll_loop fuel file_obj max_wait_time check_interval start_time).
Proof.
  induction fuel as [| fuel IH]; cbn [poll_loop].
  - apply honest_none. reflexivity.
  - apply honest_bind; [apply honest_do_time |]. intros now.
    destruct (Qlt_le_dec max_wait_time (now - start_time)); [apply honest_ret |].
    apply honest_bind; [apply honest_do_get_file |]. intros [e | f]; [apply honest_ret |].
    destruct (file_state f =? "ACTIVE"); [apply honest_ret |].
    destruct (file_state f =? "FAILED"); [apply honest_ret |].
    destruct (Qlt_le_dec check_interval 0); [apply honest_ret |].
    apply honest_bind; [apply honest_do_sleep |]. intros _. apply IH.
Qed.

Lemma honest_wait_for_file_processing (file_obj : FileObj) (max_wait_time check_interval : Q) :
  honest (wait_for_file_processing file_obj max_wait_time check_interval).
Proof.
  unfold wait_for_file_processing.
  apply honest_bind; [apply honest_do_time |]. intros start_time. apply honest_poll_loop.
Qed.

Lemma honest_generate_loop (fuel : nat) (filename : string) (processed_file : FileObj)
    (max_retries n : nat) :
  honest (generate_loop fuel filename processed_file max_retries n).
Proof.
  revert n. induction fuel as [| fuel IH]; intros n; cbn [generate_loop].
  - apply honest_none. reflexivity.
  - destruct (n <=? max_retries)%nat; [| apply honest_ret].
    apply honest_bind; [apply honest_do_generate |]. intros r.
    destruct (match r with inl e => inl e | inr response => handle_response response end)
      as [message | [text |]]; [| apply honest_ret |].
    + destruct (S n <=? max_retries)%nat; [| apply honest_ret].
      apply honest_bind; [apply honest_uniform |]. intros jitter.
      apply honest_bind; [apply honest_do_sleep |]. intros _. apply IH.
    + destruct (S n <=? max_retries)%nat; [| apply honest_ret].
      apply honest_bind; [apply honest_uniform |]. intros jitter.
      apply honest_bind; [apply honest_do_sleep |]. intros _. apply IH.
Qed.

Lemma honest_analyze_video (fs : FileSystem) (video_path : Path) (max_retries : nat) :
  honest (analyze_video fs video_path max_retries).
Proof.
  unfold analyze_video, upload_video_to_file_api.
  destruct (negb (is_valid_video_file fs video_path 10)); [apply honest_ret |].
  apply honest_bind; [apply honest_upload_loop |]. intros [file_obj |]; [| apply honest_ret].
  apply honest_bind; [apply honest_wait_for_file_processing |]. intros o.
  destruct (returned o) as [processed_file |]; [| apply honest_ret].
  apply honest_generate_loop.
Qed.

Lemma honest_process_each (fs : FileSystem) (video_files : list Path) (wait_time : Q)
    (results : list Result) :
  honest (process_each fs video_files wait_time results).
Proof.
  revert results. induction video_files as [| file_path rest IH]; intros results;
    cbn [process_each]; [apply honest_ret |].
  apply honest_bind; [apply honest_analyze_video |]. intros result.
  destruct rest as [| next rest]; [apply honest_ret |].
  apply honest_bind; [apply honest_uniform |]. intros jitter.
  apply honest_bind; [apply honest_do_sleep |]. intros _. apply IH.
Qed.

Lemma honest_process_videos (fs : FileSystem) (video_path : Path) (wait_time : Q)
    (force_retry : bool) (specific_file : option string) :
  honest (process_videos fs video_path wait_time force_retry specific_file).
Proof.
  unfold process_videos.
  destruct (fs_is_file fs video_path).
  { apply honest_bind; [apply honest_analyze_video |]. intros result. apply honest_ret. }
  destruct (fs_is_dir fs video_path); [| apply honest_ret].
  destruct (check_previous fs force_retry _) as [video_files previous_results].
  apply honest_bind; [apply honest_process_each |]. intros results. apply honest_ret.
Qed.

(** ** The upload client against the client's answers *)

Lemma upload_spec_last (p : Path) (max_retries : nat) (base_delay : Q) (n : nat)
    (events : list Event) (r : option FileObj) :
  upload_spec p max_retries base_delay n events r ->
  forall file_obj, r = Some file_obj ->
    List.last events (EvSleep 0) = EvUpload p (inr file_obj) /\
    EvUpload p (inr file_obj) ∈ events.
Proof.
  induction 1 as [n f | n e Hn | n e j events r Hn H0 H1 Hspec IH]; intros g Hg.
  - injection Hg as <-. split; [reflexivity | apply list_elem_of_here].
  - discriminate.
  - destruct (IH g Hg) as [Hlast Hin]. split; [| do 2 apply list_elem_of_further; exact Hin].
    destruct events as [| ev events']; [inversion Hspec |]. exact Hlast.
Qed.

Lemma backoff_in_range_base (base_delay : Q) (max_retries : nat) :
  backoff_in_range base_delay max_retries -> (0 <= base_delay)%Q.
Proof. intros (Hbase & _ & _). exact Hbase. Qed.

Lemma run_events {A : Type} (m : M A) (s : State) (a : A) (s' : State) (events : list Event) :
  honest m -> m s = Some (a, s') -> log s' = log s ++ events ->
  answers (world s) events (world s').
Proof.
  intros Hm Hrun Hlog. destruct (Hm _ _ _ Hrun) as (events' & Hlog' & Hans).
  rewrite Hlog in Hlog'. apply app_inv_head in Hlog'. subst events'. exact Hans.
Qed.

(** C7.  For a base delay and a number of retries in range (the defaults 2
    and 3 are), an upload run always returns, and it returns nothing rather
    than raise when the last allowed try fails.  What it adds to the log is
    what the client answered: every try is a call of the remote upload on the
    path, with the answer the client gave.  The calls are those of
    [upload_spec]: a failed try is followed by the backoff sleep and a new
    try, a successful try ends the run at once with the handle the client
    returned, which is the answer of the last call of the run.  There are at
    most [max_retries + 1] tries, and exactly that many when the run returns
    nothing. *)
Theorem upload_video_to_file_api_spec (video_path : Path) (max_retries : nat) (base_delay : Q)
    (s : State) :
  backoff_in_range base_delay max_retries ->
  exists r s' events,
    upload_video_to_file_api video_path max_retries base_delay s = Some (r, s') /\
    log s' = log s ++ events /\
    answers (world s) events (world s') /\
    upload_spec video_path max_retries base_delay 0 events r /\
    (1 <= upload_tries events <= max_retries + 1)%nat /\
    (r = None -> upload_tries events = (max_retries + 1)%nat) /\
    (forall file_obj, r = Some file_obj ->
       List.last events (EvSleep 0) = EvUpload video_path (inr file_obj) /\
       exists w, (upload_file video_path w).1 = inr file_obj).
Proof.
  intros Hrange.
  destruct (upload_run video_path max_retries base_delay s (backoff_in_range_base _ _ Hrange))
    as (r & s' & events & Hrun & Hlog & Hspec).
  assert (Hans : answers (world s) events (world s')).
  { eapply run_events; [| exact Hrun | exact Hlog]. apply honest_upload_loop. }
  exists r, s', events. split; [exact Hrun |]. split; [exact Hlog |]. split; [exact Hans |].
  split; [exact Hspec |].
  destruct (upload_spec_tries _ _ _ _ _ _ Hspec) as (Hone & Hmost & Hnone); [lia |].
  split; [lia |]. split; [intros Hr; specialize (Hnone Hr); lia |].
  intros file_obj Hr. destruct (upload_spec_last _ _ _ _ _ _ Hspec file_obj Hr) as [Hlast Hin].
  split; [exact Hlast |]. destruct (answers_calls _ _ _ Hans) as (Hup & _). eapply Hup, Hin.
Qed.

(** C8, as amended.  For a base delay and a number of retries in range, the
    delay slept before retry number [i + 1] of an upload run is
    [base_delay * 2 ^ (i + 1)] plus an offset between zero and one, and so is
    at least [base_delay * 2 ^ (i + 1)].  When the base delay is at least
    half a second the delays of a run never decrease from one retry to the
    next, and when it is more than half a second (the program always passes
    2) they increase strictly. *)
Theorem upload_backoff_bounds (video_path : Path) (max_retries : nat) (base_delay : Q)
    (s : State) :
  backoff_in_range base_delay max_retries ->
  exists r s' events,
    upload_video_to_file_api video_path max_retries base_delay s = Some (r, s') /\
    log s' = log s ++ events /\
    (forall (i : nat) (d : Q), sleeps events !! i = Some d ->
       exists offset : Q,
         (0 <= offset)%Q /\ (offset <= 1)%Q /\
         d = (base_delay * inject_Z (2 ^ Z.of_nat (S i)) + offset)%Q /\
         (base_delay * inject_Z (2 ^ Z.of_nat (S i)) <= d)%Q) /\
    ((1 # 2 <= base_delay)%Q ->
     forall (i j : nat) (di dj : Q), (i < j)%nat ->
       sleeps events !! i = Some di -> sleeps events !! j = Some dj -> (di <= dj)%Q) /\
    ((1 # 2 < base_delay)%Q ->
     forall (i j : nat) (di dj : Q), (i < j)%nat ->
       sleeps events !! i = Some di -> sleeps events !! j = Some dj -> (di < dj)%Q).
Proof.
  intros Hrange.
  destruct (upload_run video_path max_retries base_delay s (backoff_in_range_base _ _ Hrange))
    as (r & s' & events & Hrun & Hlog & Hspec).
  exists r, s', events. split; [exact Hrun |]. split; [exact Hlog |]. split; [| split].
  - intros i d Hd.
    destruct (upload_spec_sleeps _ _ _ _ _ _ Hspec i d Hd) as (jitter & H0 & H1 & ->).
    exists jitter. split; [exact H0 |]. split; [exact H1 |]. split; [reflexivity |].
    unfold backoff. cbn [Nat.add]. lra.
  - intros Hbase i j di dj Hij Hi Hj.
    destruct (upload_spec_sleeps _ _ _ _ _ _ Hspec i di Hi) as (ji & Hi0 & Hi1 & ->).
    destruct (upload_spec_sleeps _ _ _ _ _ _ Hspec j dj Hj) as (jj & Hj0 & Hj1 & ->).
    unfold backoff. cbn [Nat.add].
    destruct (pow2_retry_bounds i j Hij) as [Hlow Hdouble].
    set (a := inject_Z (2 ^ Z.of_nat (S i))) in *.
    set (b := inject_Z (2 ^ Z.of_nat (S j))) in *.
    nra.
  - intros Hbase i j di dj Hij Hi Hj.
    destruct (upload_spec_sleeps _ _ _ _ _ _ Hspec i di Hi) as (ji & Hi0 & Hi1 & ->).
    destruct (upload_spec_sleeps _ _ _ _ _ _ Hspec j dj Hj) as (jj & Hj0 & Hj1 & ->).
    unfold backoff. cbn [Nat.add].
    destruct (pow2_retry_bounds i j Hij) as [Hlow Hdouble].
    set (a := inject_Z (2 ^ Z.of_nat (S i))) in *.
    set (b := inject_Z (2 ^ Z.of_nat (S j))) in *.
    nra.
Qed.

(** ** The readiness poller *)

Lemma poll_loop_step (fuel : nat) (file_obj : FileObj)
    (max_wait_time check_interval start_time : Q) :
  poll_loop (S fuel) file_obj max_wait_time check_interval start_time =
  (now <- do_time ;;
   let elapsed_time := (now - start_time)%Q in
   if Qlt_le_dec max_wait_time elapsed_time then ret (TimedOut elapsed_time)
   else
     r <- do_get_file (file_name file_obj) ;;
     match r with
     | inr updated_file =>
         if file_state updated_file =? "ACTIVE" then ret (Ready updated_file)
         else if file_state updated_file =? "FAILED" then ret ProcessingFailed
         else if Qlt_le_dec check_interval 0 then
           ret (QueryError "sleep length must be non-negative")
         else
           _ <- do_sleep check_interval ;;
           poll_loop fuel file_obj max_wait_time check_interval start_time
     | inl e => ret (QueryError e)
     end).
Proof. reflexivity. Qed.

Lemma poll_loop_spec (file_obj : FileObj) (max_wait_time check_interval start_time : Q)
    (n : nat) (s : State) :
  (max_wait_time - (clock (world s) - start_time) < inject_Z (Z.of_nat n) * check_interval)%Q ->
  exists o s' events,
    poll_loop (S n) file_obj max_wait_time check_interval start_time s = Some (o, s') /\
    log s' = log s ++ events /\
    poll_spec (file_name file_obj) max_wait_time check_interval start_time events o.
Proof.
  revert s. induction n as [| n IH]; intros s Hleft;
    rewrite poll_loop_step; unfold bind at 1, do_time; cbn [world log];
    destruct (Qlt_le_dec max_wait_time (clock (world s) - start_time)) as [Hout | Hin].
  - eexists _, _, [EvClock (clock (world s))]. split; [reflexivity |].
    split; [reflexivity |]. apply poll_timed_out, Hout.
  - exfalso. change (inject_Z (Z.of_nat 0)) with 0%Q in Hleft. lra.
  - eexists _, _, [EvClock (clock (world s))]. split; [reflexivity |].
    split; [reflexivity |]. apply poll_timed_out, Hout.
  - unfold bind at 1, do_get_file, call. cbn [world log].
    pose proof (clock_get_file (file_name file_obj) (world s)) as Hmono.
    destruct (get_file (file_name file_obj) (world s)) as [[e | f] w]; cbn [snd] in Hmono.
    + eexists _, _, [EvClock (clock (world s)); EvGetFile (file_name file_obj) (inl e)].
      split; [reflexivity |]. split; [rewrite <- app_assoc; reflexivity |].
      apply poll_raised, Hin.
    + destruct (String.eqb_spec (file_state f) "ACTIVE") as [Hactive | Hnot].
      { eexists _, _, [EvClock (clock (world s)); EvGetFile (file_name file_obj) (inr f)].
        split; [reflexivity |]. split; [rewrite <- app_assoc; reflexivity |].
        apply poll_active; assumption. }
      destruct (String.eqb_spec (file_state f) "FAILED") as [Hfailed | Hgoes].
      { eexists _, _, [EvClock (clock (world s)); EvGetFile (file_name file_obj) (inr f)].
        split; [reflexivity |]. split; [rewrite <- app_assoc; reflexivity |].
        apply poll_failed; assumption. }
      destruct (Qlt_le_dec check_interval 0) as [Hneg | Hpos].
      { eexists _, _, [EvClock (clock (world s)); EvGetFile (file_name file_obj) (inr f)].
        split; [reflexivity |]. split; [rewrite <- app_assoc; reflexivity |].
        apply poll_sleep_raised; assumption. }
      unfold bind at 1. rewrite do_sleep_returns by exact Hpos. cbn [world log].
      pose proof (clock_sleep check_interval w) as Hslept.
      set (s3 := mkState (time_sleep check_interval w) _).
      destruct (IH s3) as (o & s' & events & Hrun & Hlog & Hspec).
      { subst s3. cbn [world].
        rewrite Nat2Z.inj_succ in Hleft. unfold Z.succ in Hleft.
        rewrite inject_Z_plus in Hleft. change (inject_Z 1) with 1%Q in Hleft.
        set (k := inject_Z (Z.of_nat n)) in *. nra. }
      exists o, s',
        (EvClock (clock (world s)) :: EvGetFile (file_name file_obj) (inr f)
         :: EvSleep check_interval :: events).
      split; [exact Hrun |]. split.
      * rewrite Hlog. subst s3. cbn [log]. rewrite <- !app_assoc. reflexivity.
      * apply poll_again; assumption.
Qed.

Lemma poll_fuel_enough (max_wait_time check_interval : Q) :
  (0 < check_interval)%Q ->
  (max_wait_time <
   inject_Z (Z.of_nat (S (Z.to_nat (Qfloor (max_wait_time / check_interval))))) * check_interval)%Q.
Proof.
  intros Hpos.
  set (k := Qfloor (max_wait_time / check_interval)).
  assert (Hk : (max_wait_time / check_interval < inject_Z (k + 1))%Q) by apply Qlt_floor.
  assert (Hn : (inject_Z (k + 1) <= inject_Z (Z.of_nat (S (Z.to_nat k))))%Q).
  { rewrite <- Zle_Qle. lia. }
  assert (Heq : (max_wait_time == max_wait_time / check_interval * check_interval)%Q).
  { field. lra. }
  rewrite Heq at 1. apply Qmult_lt_compat_r; [exact Hpos |].
  eapply Qlt_le_trans; eassumption.
Qed.

Lemma poll_spec_ready (n : string) (max_wait_time check_interval start_time : Q)
    (events : list Event) (o : PollOutcome) :
  poll_spec n max_wait_time check_interval start_time events o ->
  forall f, returned o = Some f ->
    file_state f = "ACTIVE" /\ List.last events (EvSleep 0) = EvGetFile n (inr f).
Proof.
  induction 1 as [t Ht | t f Ht Hf | t f Ht Hf | t e Ht | t f Ht Ha Hf Hneg
                 | t f events o Ht Ha Hf Hpos Hspec IH];
    intros g Hg; cbn [returned] in Hg; try discriminate.
  - injection Hg as <-. split; [assumption | reflexivity].
  - destruct (IH g Hg) as [Hstate Hlast]. split; [assumption |].
    destruct events as [| ev events']; [inversion Hspec |].
    exact Hlast.
Qed.

Lemma poll_spec_timed_out (n : string) (max_wait_time check_interval start_time : Q)
    (events : list Event) (o : PollOutcome) :
  poll_spec n max_wait_time check_interval start_time events o ->
  forall e, o = TimedOut e ->
    (max_wait_time < e)%Q /\
    exists t, e = (t - start_time)%Q /\ List.last events (EvSleep 0) = EvClock t.
Proof.
  induction 1 as [t Ht | t f Ht Hf | t f Ht Hf | t e Ht | t f Ht Ha Hf Hneg
                 | t f events o Ht Ha Hf Hpos Hspec IH];
    intros e' He; try discriminate.
  - injection He as <-. split; [exact Ht |]. exists t. split; reflexivity.
  - destruct (IH e' He) as (Hlate & t' & He' & Hlast). split; [exact Hlate |].
    exists t'. split; [exact He' |].
    destruct events as [| ev events']; [inversion Hspec |]. exact Hlast.
Qed.

Lemma poll_spec_late_reading (n : string) (max_wait_time check_interval start_time : Q)
    (events : list Event) (o : PollOutcome) :
  poll_spec n max_wait_time check_interval start_time events o ->
  forall t, EvClock t ∈ events -> (max_wait_time < t - start_time)%Q ->
    o = TimedOut (t - start_time).
Proof.
  induction 1 as [t Ht | t f Ht Hf | t f Ht Hf | t e Ht | t f Ht Ha Hf Hneg
                 | t f events o Ht Ha Hf Hpos Hspec IH];
    intros t' Hin Hlate.
  - apply list_elem_of_singleton in Hin. injection Hin as ->. reflexivity.
  - apply elem_of_cons in Hin as [Heq | Hin]; [injection Heq as ->; lra |].
    apply list_elem_of_singleton in Hin. discriminate.
  - apply elem_of_cons in Hin as [Heq | Hin]; [injection Heq as ->; lra |].
    apply list_elem_of_singleton in Hin. discriminate.
  - apply elem_of_cons in Hin as [Heq | Hin]; [injection Heq as ->; lra |].
    apply list_elem_of_singleton in Hin. discriminate.
  - apply elem_of_cons in Hin as [Heq | Hin]; [injection Heq as ->; lra |].
    apply list_elem_of_singleton in Hin. discriminate.
  - apply elem_of_cons in Hin as [Heq | Hin]; [injection Heq as ->; lra |].
    apply elem_of_cons in Hin as [Heq | Hin]; [discriminate |].
    apply elem_of_cons in Hin as [Heq | Hin]; [discriminate |].
    apply IH; assumption.
Qed.

Lemma wait_run (file_obj : FileObj) (max_wait_time check_interval : Q) (s : State) :
  (0 < check_interval)%Q ->
  exists o s' events,
    wait_for_file_processing file_obj max_wait_time check_interval s = Some (o, s') /\
    log s' = log s ++ EvClock (clock (world s)) :: events /\
    poll_spec (file_name file_obj) max_wait_time check_interval (clock (world s)) events o.
Proof.
  intros Hpos. unfold wait_for_file_processing, poll_fuel.
  unfold bind at 1, do_time. cbn [world log].
  set (s1 := mkState (world s) _).
  destruct (poll_loop_spec file_obj max_wait_time check_interval (clock (world s))
              (S (Z.to_nat (Qfloor (max_wait_time / check_interval)))) s1)
    as (o & s' & events & Hrun & Hlog & Hspec).
  { subst s1. cbn [world].
    pose proof (poll_fuel_enough max_wait_time check_interval Hpos) as Hfuel.
    set (k := inject_Z _) in *. lra. }
  exists o, s', events. split; [exact Hrun |]. split; [| exact Hspec].
  rewrite Hlog. subst s1. cbn [log]. rewrite <- app_assoc. reflexivity.
Qed.


Lemma poll_loop_sound (fuel : nat) (file_obj : FileObj)
    (max_wait_time check_interval start_time : Q) (s : State) (o : PollOutcome) (s' : State) :
  poll_loop fuel file_obj max_wait_time check_interval start_time s = Some (o, s') ->
  exists events,
    log s' = log s ++ events /\
    poll_spec (file_name file_obj) max_wait_time check_interval start_time events o.
Proof.
  revert s. induction fuel as [| fuel IH]; intros s; [discriminate |].
  rewrite poll_loop_step. unfold bind at 1, do_time. cbn [world log].
  destruct (Qlt_le_dec max_wait_time (clock (world s) - start_time)) as [Hout | Hin].
  { intros [= <- <-]. exists [EvClock (clock (world s))]. split; [reflexivity |].
    apply poll_timed_out, Hout. }
  unfold bind at 1, do_get_file, call. cbn [world log].
  destruct (get_file (file_name file_obj) (world s)) as [[e | f] w].
  { intros [= <- <-]. exists [EvClock (clock (world s)); EvGetFile (file_name file_obj) (inl e)].
    split; [cbn [log]; rewrite <- app_assoc; reflexivity |]. apply poll_raised, Hin. }
  destruct (String.eqb_spec (file_state f) "ACTIVE") as [Hactive | Hnot].
  { intros [= <- <-]. exists [EvClock (clock (world s)); EvGetFile (file_name file_obj) (inr f)].
    split; [cbn [log]; rewrite <- app_assoc; reflexivity |]. apply poll_active; assumption. }
  destruct (String.eqb_spec (file_state f) "FAILED") as [Hfailed | Hgoes].
  { intros [= <- <-]. exists [EvClock (clock (world s)); EvGetFile (file_name file_obj) (inr f)].
    split; [cbn [log]; rewrite <- app_assoc; reflexivity |]. apply poll_failed; assumption. }
  destruct (Qlt_le_dec check_interval 0) as [Hneg | Hpos].
  { intros [= <- <-]. exists [EvClock (clock (world s)); EvGetFile (file_name file_obj) (inr f)].
    split; [cbn [log]; rewrite <- app_assoc; reflexivity |].
    apply poll_sleep_raised; assumption. }
  unfold bind at 1. rewrite do_sleep_returns by exact Hpos. cbn [world log].
  intros Hrun. destruct (IH _ Hrun) as (events & Hlog & Hspec).
  exists (EvClock (clock (world s)) :: EvGetFile (file_name file_obj) (inr f)
          :: EvSleep check_interval :: events).
  split; [rewrite Hlog; cbn [log]; rewrite <- !app_assoc; reflexivity |].
  apply poll_again; assumption.
Qed.

(** C4.  Whenever the wait returns, what it added to the log is what the
    client answered, and its calls and outcome are those of [poll_spec]:
    every round reads the clock before any query; the wait ends in a timeout
    exactly in the round whose reading exceeds [max_wait_time], without a
    query and whatever the remote state is: a timeout comes with such a
    reading as the last call made, and a reading past the limit, wherever it
    stands in the run, makes the outcome the timeout; the refreshed handle
    is returned only from a query for the file's name that the client
    answered with the state "ACTIVE", which is then the last call made and
    whose answer is the handle returned; "FAILED" and an exception each end
    the wait at once, in a failure.  With a positive check interval the wait
    always returns. *)
Theorem wait_for_file_processing_spec (file_obj : FileObj) (max_wait_time check_interval : Q)
    (s : State) :
  (forall (o : PollOutcome) (s' : State),
     wait_for_file_processing file_obj max_wait_time check_interval s = Some (o, s') ->
     exists events,
       log s' = log s ++ EvClock (clock (world s)) :: events /\
       answers (world s) (EvClock (clock (world s)) :: events) (world s') /\
       poll_spec (file_name file_obj) max_wait_time check_interval (clock (world s)) events o /\
       (forall f, returned o = Some f ->
          file_state f = "ACTIVE" /\
          List.last events (EvSleep 0) = EvGetFile (file_name file_obj) (inr f) /\
          exists w, (get_file (file_name file_obj) w).1 = inr f) /\
       (forall e, o = TimedOut e ->
          (max_wait_time < e)%Q /\
          exists t, e = (t - clock (world s))%Q /\ List.last events (EvSleep 0) = EvClock t) /\
       (forall t, EvClock t ∈ events -> (max_wait_time < t - clock (world s))%Q ->
          o = TimedOut (t - clock (world s)))) /\
  ((0 < check_interval)%Q ->
   exists (o : PollOutcome) (s' : State),
     wait_for_file_processing file_obj max_wait_time check_interval s = Some (o, s')).
Proof.
  split.
  - intros o s' Hrun.
    pose proof (honest_wait_for_file_processing file_obj max_wait_time check_interval) as Hhonest.
    revert Hrun. unfold wait_for_file_processing at 1.
    unfold bind at 1, do_time. cbn [world log]. intros Hloop.
    destruct (poll_loop_sound _ _ _ _ _ _ _ _ Hloop) as (events & Hlog & Hspec).
    cbn [log] in Hlog. rewrite <- app_assoc in Hlog. cbn [app] in Hlog.
    assert (Hrun : wait_for_file_processing file_obj max_wait_time check_interval s
                   = Some (o, s')) by exact Hloop.
    pose proof (run_events _ _ _ _ _ Hhonest Hrun Hlog) as Hans.
    exists events. split; [exact Hlog |]. split; [exact Hans |]. split; [exact Hspec |].
    split; [| split].
    + intros f Hf. destruct (poll_spec_ready _ _ _ _ _ _ Hspec f Hf) as [Hstate Hlast].
      split; [exact Hstate |]. split; [exact Hlast |].
      destruct (answers_calls _ _ _ Hans) as (_ & Hget & _). eapply Hget.
      apply list_elem_of_further.
      destruct events as [| ev events'] using rev_ind; [discriminate Hlast |].
      rewrite last_last in Hlast. subst ev. apply elem_of_app. right. apply list_elem_of_here.
    + eapply poll_spec_timed_out, Hspec.
    + eapply poll_spec_late_reading, Hspec.
  - intros Hpos.
    destruct (wait_run file_obj max_wait_time check_interval s Hpos)
      as (o & s' & events & Hrun & _). eauto.
Qed.

(** ** The inference invoker *)




(** ** The per-file analysis *)






(** ** The batch orchestrator *)








(** ** Resuming from the previous results *)

Lemma read_rows_rows (rows : list (list string)) (previous_processed : gset string)
    (previous_results : list Result) :
  read_rows (Row <$> rows) previous_processed previous_results =
  (true, skip_set rows ∪ previous_processed, previous_results ++ omap populated rows).
Proof.
  unfold skip_set. revert previous_processed previous_results.
  induction rows as [| row rows IH]; intros pp pr.
  - cbn. rewrite app_nil_r, (left_id_L ∅ (∪)). reflexivity.
  - cbn [fmap list_fmap read_rows omap list_omap].
    destruct row as [| filename [| description [| tags row]]];
      cbn [populated populated_name]; try apply IH.
    destruct (truthy filename && (truthy description && truthy tags)).
    + rewrite IH, <- app_assoc. cbn [list_to_set app].
      rewrite (assoc_L (∪)), (comm_L (∪) (list_to_set _) {[filename]}). reflexivity.
    + apply IH.
Qed.

Lemma remove_processed_empty (video_files : list Path) :
  remove_processed ∅ video_files = video_files.
Proof.
  unfold remove_processed. induction video_files as [| f video_files IH]; [reflexivity |].
  cbn [List.filter]. rewrite bool_decide_eq_false_2 by apply not_elem_of_empty. cbn [negb].
  rewrite IH. reflexivity.
Qed.

Lemma check_previous_read_through (fs : FileSystem) (header : list string)
    (rows : list (list string)) (video_files : list Path) :
  results_csv fs = Some (Row header :: (Row <$> rows)) ->
  check_previous fs false video_files =
  (remove_processed (skip_set rows) video_files, omap populated rows).
Proof.
  intros Hcsv. unfold check_previous. rewrite Hcsv, read_rows_rows.
  rewrite (right_id_L ∅ (∪)). cbn [app].
  destruct (bool_decide (skip_set rows = ∅)) eqn:Hempty; cbn [negb]; [| reflexivity].
  apply bool_decide_eq_true in Hempty. rewrite Hempty, remove_processed_empty. reflexivity.
Qed.





(** X19.  When the previous results file is read to its end without an
    error, the files a directory run is left to process are exactly the
    enumerated paths with a video extension, of the name [specific_file]
    when one is given, whose name no populated row carries: the check looks
    at the last component of a path only, so every file that shares its name
    with a marked one is dropped too, whatever directory it lies in. *)
Theorem check_previous_compares_names (fs : FileSystem) (header : list string)
    (rows : list (list string)) (paths : list Path) (specific_file : option string)
    (f : Path) :
  results_csv fs = Some (Row header :: (Row <$> rows)) ->
  (f ∈ (check_previous fs false (collect_video_files paths specific_file)).1 <->
   f ∈ paths /\ is_video_extension (lower (suffix f)) = true /\
   match specific_file with
   | Some specific => specific = "" \/ name f = specific
   | None => True
   end /\
   name f ∉ skip_set rows) /\
  (forall g : Path, name g = name f -> name f ∈ skip_set rows ->
     g ∉ (check_previous fs false (collect_video_files paths specific_file)).1).
Proof.
  intros Hcsv. rewrite (check_previous_read_through fs header rows _ Hcsv). cbn [fst].
  split.
  - rewrite elem_of_remove_processed, elem_of_collect_video_files. tauto.
  - intros g Hname Hskip Hin. apply elem_of_remove_processed in Hin as [_ Hn].
    apply Hn. rewrite Hname. exact Hskip.
Qed.

(** ** The generation loop, call by call *)

Lemma generate_loop_spec (fuel : nat) (filename : string) (processed_file : FileObj)
    (max_retries n : nat) (s : State) :
  (n <= max_retries)%nat -> (max_retries - n < fuel)%nat ->
  exists r s' events,
    generate_loop fuel filename processed_file max_retries n s = Some (r, s') /\
    log s' = log s ++ events /\
    generate_spec filename (file_uri processed_file) max_retries n events r.
Proof.
  revert n s. induction fuel as [| fuel IH]; intros n s Hle Hfuel; [lia |].
  cbn [generate_loop].
  destruct (Nat.leb_spec n max_retries) as [_ | Hgt]; [| lia].
  unfold bind at 1, do_generate, call.
  destruct (generate_content (file_uri processed_file) (world s)) as [x w].
  fold (attempt_outcome x).
  set (s1 := mkState w (log s ++ [EvGenerate (file_uri processed_file) x])).
  assert (Hretry : (forall text, attempt_outcome x <> inr (Return text)) ->
    (S n <= max_retries)%nat ->
    exists r s' events,
      (jitter <- uniform 0 1 ;;
       _ <- do_sleep (backoff 2 (S n) jitter) ;;
       generate_loop fuel filename processed_file max_retries (S n)) s1 = Some (r, s') /\
      log s' = log s ++ events /\
      generate_spec filename (file_uri processed_file) max_retries n events r).
  { intros Hnot Hnext.
    destruct (uniform_unit s1) as (jitter & w2 & Hu & H0 & H1).
    unfold bind at 1. rewrite Hu. unfold bind at 1.
    rewrite do_sleep_returns by (apply backoff_nonneg; [discriminate | exact H0]). cbn [world log].
    set (s3 := mkState _ _).
    destruct (IH (S n) s3) as (r & s' & events & Hrun & Hlog & Hspec); [lia | lia |].
    exists r, s',
      (EvGenerate (file_uri processed_file) x :: EvSleep (backoff 2 (S n) jitter) :: events).
    split; [exact Hrun |]. split.
    - rewrite Hlog. subst s3 s1. cbn [log]. rewrite <- !app_assoc. reflexivity.
    - apply generate_again; [exact Hnot | lia | exact H0 | exact H1 | exact Hspec]. }
  destruct (attempt_outcome x) as [message | [text |]] eqn:Hout.
  - destruct (Nat.leb_spec (S n) max_retries) as [Hnext | Hlast].
    + apply Hretry; [intros text; discriminate | exact Hnext].
    + eexists _, s1, [_]. split; [reflexivity |]. split; [reflexivity |].
      apply generate_raised_last; [exact Hout | lia].
  - eexists _, s1, [_]. split; [reflexivity |]. split; [reflexivity |].
    apply generate_done. exact Hout.
  - destruct (Nat.leb_spec (S n) max_retries) as [Hnext | Hlast].
    + apply Hretry; [intros text; discriminate | exact Hnext].
    + eexists _, s1, [_]. split; [reflexivity |]. split; [reflexivity |].
      apply generate_empty_last; [exact Hout | lia].
Qed.

Lemma error_result_message (filename message : string) :
  error_result filename message !! "error" = Some message.
Proof. unfold error_result. rewrite lookup_insert_ne, lookup_singleton_eq by done. reflexivity. Qed.

Lemma response_result_text (filename text : string) :
  response_result filename text !! "response" = Some text /\
  response_result filename text !! "error" = None.
Proof.
  unfold response_result.
  rewrite !lookup_insert_ne, lookup_singleton_eq, lookup_singleton_ne by done. done.
Qed.

Lemma generate_spec_calls (filename uri : string) (max_retries n : nat)
    (events : list Event) (r : Result) :
  generate_spec filename uri max_retries n events r ->
  (n <= max_retries)%nat ->
  (1 <= generate_calls events)%nat /\
  (n + generate_calls events <= max_retries + 1)%nat /\
  (r !! "error" <> None -> (n + generate_calls events = max_retries + 1)%nat).
Proof.
  induction 1 as [n x text Hx | n x Hx Hn | n x message Hx Hn
                 | n x j events r Hx Hn H0 H1 Hspec IH]; intros Hle; cbn [generate_calls].
  - split; [lia |]. split; [lia |]. intros Herr. exfalso. apply Herr.
    apply response_result_text.
  - split; [lia |]. split; lia.
  - split; [lia |]. split; lia.
  - destruct IH as (Hone & Hmost & Herr); [lia |].
    split; [lia |]. split; [lia |]. intros He. specialize (Herr He). lia.
Qed.

Lemma generate_spec_error (filename uri : string) (max_retries n : nat)
    (events : list Event) (r : Result) :
  generate_spec filename uri max_retries n events r ->
  forall message : string, r !! "error" = Some message ->
  exists x, List.last events (EvSleep 0) = EvGenerate uri x /\
    (attempt_outcome x = inl message \/
     attempt_outcome x = inr EmptyResponse /\
     message = "Empty response received after multiple attempts").
Proof.
  induction 1 as [n x text Hx | n x Hx Hn | n x message Hx Hn
                 | n x j events r Hx Hn H0 H1 Hspec IH]; intros m Hm.
  - destruct (response_result_text filename text) as [_ Hnone].
    rewrite Hnone in Hm. discriminate Hm.
  - rewrite error_result_message in Hm. injection Hm as <-. exists x. auto.
  - rewrite error_result_message in Hm. injection Hm as <-. exists x. auto.
  - destruct (IH m Hm) as (x' & Hlast & Hwhy). exists x'. split; [| exact Hwhy].
    destruct events as [| ev events']; [inversion Hspec |]. exact Hlast.
Qed.

(** X1.  The generation loop of [analyze_video] always returns, after at
    least one and at most [max_retries + 1] generation calls, and it returns
    an error only after exactly [max_retries + 1] calls.  The error message is
    then the message of the exception of the last call, or the empty-response
    message when the last answer was empty; in particular the
    "Maximum retry attempts exceeded" return that follows the loop is never
    reached. *)
Theorem generate_loop_bounded (filename : string) (processed_file : FileObj)
    (max_retries : nat) (s : State) :
  exists r s' events,
    generate_loop (S (S max_retries)) filename processed_file max_retries 0 s = Some (r, s') /\
    log s' = log s ++ events /\
    generate_spec filename (file_uri processed_file) max_retries 0 events r /\
    (1 <= generate_calls events <= max_retries + 1)%nat /\
    (forall message : string, r !! "error" = Some message ->
       generate_calls events = (max_retries + 1)%nat /\
       exists x, List.last events (EvSleep 0) = EvGenerate (file_uri processed_file) x /\
         (attempt_outcome x = inl message \/
          attempt_outcome x = inr EmptyResponse /\
          message = "Empty response received after multiple attempts")).
Proof.
  destruct (generate_loop_spec (S (S max_retries)) filename processed_file max_retries 0 s)
    as (r & s' & events & Hrun & Hlog & Hspec); [lia | lia |].
  exists r, s', events. split; [exact Hrun |]. split; [exact Hlog |]. split; [exact Hspec |].
  destruct (generate_spec_calls _ _ _ _ _ _ Hspec) as (Hone & Hmost & Herr); [lia |].
  split; [lia |]. intros message Hm. split.
  - assert (r !! "error" <> None) as Hsome by congruence. specialize (Herr Hsome). lia.
  - eapply generate_spec_error; eassumption.
Qed.

(** ** The stages of one analysis *)

Lemma upload_spec_events (p : Path) (max_retries : nat) (base_delay : Q) (n : nat)
    (events : list Event) (r : option FileObj) :
  upload_spec p max_retries base_delay n events r ->
  (forall ev, ev ∈ events -> (exists x, ev = EvUpload p x) \/ (exists d, ev = EvSleep d)) /\
  (forall file_obj, r = Some file_obj -> EvUpload p (inr file_obj) ∈ events).
Proof.
  induction 1 as [n f | n e Hn | n e j events r Hn H0 H1 Hspec [IHev IHres]].
  - split.
    + intros ev Hin. apply list_elem_of_singleton in Hin as ->. left. eauto.
    + intros g [= <-]. apply list_elem_of_singleton. reflexivity.
  - split; [| discriminate].
    intros ev Hin. apply list_elem_of_singleton in Hin as ->. left. eauto.
  - split.
    + intros ev Hin.
      apply elem_of_cons in Hin as [-> | Hin]; [left; eauto |].
      apply elem_of_cons in Hin as [-> | Hin]; [right; eauto |].
      apply IHev, Hin.
    + intros g Hg. do 2 apply list_elem_of_further. apply IHres, Hg.
Qed.

Lemma poll_spec_events (n : string) (max_wait_time check_interval start_time : Q)
    (events : list Event) (o : PollOutcome) :
  poll_spec n max_wait_time check_interval start_time events o ->
  (forall ev, ev ∈ events ->
     (exists t, ev = EvClock t) \/ (exists x, ev = EvGetFile n x) \/ ev = EvSleep check_interval) /\
  (forall f, returned o = Some f -> file_state f = "ACTIVE" /\ EvGetFile n (inr f) ∈ events).
Proof.
  induction 1 as [t Ht | t f Ht Hf | t f Ht Hf | t e Ht | t f Ht Ha Hf Hneg
                 | t f events o Ht Ha Hf Hpos Hspec [IHev IHres]].
  - split; [| discriminate].
    intros ev Hin. apply list_elem_of_singleton in Hin as ->. left. eauto.
  - split.
    + intros ev Hin. apply elem_of_cons in Hin as [-> | Hin]; [left; eauto |].
      apply list_elem_of_singleton in Hin as ->. right. left. eauto.
    + intros g [= <-]. split; [exact Hf |].
      apply list_elem_of_further, list_elem_of_singleton. reflexivity.
  - split; [| discriminate].
    intros ev Hin. apply elem_of_cons in Hin as [-> | Hin]; [left; eauto |].
    apply list_elem_of_singleton in Hin as ->. right. left. eauto.
  - split; [| discriminate].
    intros ev Hin. apply elem_of_cons in Hin as [-> | Hin]; [left; eauto |].
    apply list_elem_of_singleton in Hin as ->. right. left. eauto.
  - split; [| discriminate].
    intros ev Hin. apply elem_of_cons in Hin as [-> | Hin]; [left; eauto |].
    apply list_elem_of_singleton in Hin as ->. right. left. eauto.
  - split.
    + intros ev Hin.
      apply elem_of_cons in Hin as [-> | Hin]; [left; eauto |].
      apply elem_of_cons in Hin as [-> | Hin]; [right; left; eauto |].
      apply elem_of_cons in Hin as [-> | Hin]; [right; right; reflexivity |].
      apply IHev, Hin.
    + intros g Hg. destruct (IHres g Hg) as [Hstate Hin]. split; [exact Hstate |].
      do 3 apply list_elem_of_further. exact Hin.
Qed.

Lemma generate_spec_events (filename uri : string) (max_retries n : nat)
    (events : list Event) (r : Result) :
  generate_spec filename uri max_retries n events r ->
  forall ev, ev ∈ events -> (exists x, ev = EvGenerate uri x) \/ (exists d, ev = EvSleep d).
Proof.
  induction 1 as [n x text Hx | n x Hx Hn | n x message Hx Hn
                 | n x j events r Hx Hn H0 H1 Hspec IH]; intros ev Hin.
  - apply list_elem_of_singleton in Hin as ->. left. eauto.
  - apply list_elem_of_singleton in Hin as ->. left. eauto.
  - apply list_elem_of_singleton in Hin as ->. left. eauto.
  - apply elem_of_cons in Hin as [-> | Hin]; [left; eauto |].
    apply elem_of_cons in Hin as [-> | Hin]; [right; eauto |].
    apply IH, Hin.
Qed.

Lemma analyze_video_run (fs : FileSystem) (video_path : Path) (max_retries : nat) (s : State) :
  exists r s' events,
    analyze_video fs video_path max_retries s = Some (r, s') /\
    log s' = log s ++ events /\
    analyze_spec fs video_path max_retries events r.
Proof.
  unfold analyze_video.
  destruct (is_valid_video_file fs video_path 10) eqn:Hvalid; cbn [negb].
  2:{ eexists _, s, []. split; [reflexivity |]. split; [rewrite app_nil_r; reflexivity |].
      apply analyze_invalid, Hvalid. }
  destruct (upload_run video_path 3 2 s ltac:(discriminate)) as (up & s1 & ev1 & Hup & Hlog1 & Hspec1).
  unfold bind at 1. rewrite Hup.
  destruct up as [file_obj |].
  2:{ eexists _, s1, ev1. split; [reflexivity |]. split; [exact Hlog1 |].
      apply analyze_upload_failed; assumption. }
  destruct (wait_run file_obj 600 10 s1) as (o & s2 & ev2 & Hwait & Hlog2 & Hspec2);
    [reflexivity |].
  unfold bind at 1. rewrite Hwait.
  destruct (returned o) as [processed_file |] eqn:Hret.
  2:{ eexists _, s2, (ev1 ++ EvClock (clock (world s1)) :: ev2).
      split; [reflexivity |]. split; [rewrite Hlog2, Hlog1, <- app_assoc; reflexivity |].
      eapply analyze_not_ready; eassumption. }
  destruct o as [f | | |]; cbn [returned] in Hret; try discriminate.
  injection Hret as ->.
  destruct (generate_loop_spec (S (S max_retries)) (name video_path) processed_file
              max_retries 0 s2) as (r & s3 & ev3 & Hgen & Hlog3 & Hspec3); [lia | lia |].
  exists r, s3, (ev1 ++ EvClock (clock (world s1)) :: ev2 ++ ev3).
  split; [exact Hgen |]. split.
  - rewrite Hlog3, Hlog2, Hlog1, <- !app_assoc. reflexivity.
  - eapply analyze_generated; eassumption.
Qed.


Lemma analyze_spec_order (fs : FileSystem) (video_path : Path) (max_retries : nat)
    (events : list Event) (r : Result) :
  analyze_spec fs video_path max_retries events r ->
  (is_valid_video_file fs video_path 10 = false -> events = []) /\
  (forall p x, EvUpload p x ∈ events -> p = video_path) /\
  (forall n x, EvGetFile n x ∈ events ->
     exists file_obj, EvUpload video_path (inr file_obj) ∈ events /\ file_name file_obj = n) /\
  (forall uri x, EvGenerate uri x ∈ events ->
     exists n f, EvGetFile n (inr f) ∈ events /\ file_state f = "ACTIVE" /\ file_uri f = uri).
Proof.
  assert (Hup : forall uploads res, upload_spec video_path 3 2 0 uploads res ->
    (forall p x, EvUpload p x ∈ uploads -> p = video_path) /\
    (forall n x, EvGetFile n x ∉ uploads) /\ (forall uri x, EvGenerate uri x ∉ uploads)).
  { intros uploads res Hspec. destruct (upload_spec_events _ _ _ _ _ _ Hspec) as [Hev _].
    split; [| split].
    - intros p x Hin. destruct (Hev _ Hin) as [[y Hy] | [d Hd]]; congruence.
    - intros n x Hin. destruct (Hev _ Hin) as [[y Hy] | [d Hd]]; discriminate.
    - intros uri x Hin. destruct (Hev _ Hin) as [[y Hy] | [d Hd]]; discriminate. }
  assert (Hpoll : forall n0 t polls o, poll_spec n0 600 10 t polls o ->
    (forall p x, EvUpload p x ∉ polls) /\
    (forall n x, EvGetFile n x ∈ polls -> n = n0) /\ (forall uri x, EvGenerate uri x ∉ polls)).
  { intros n0 t polls o Hspec. destruct (poll_spec_events _ _ _ _ _ _ Hspec) as [Hev _].
    split; [| split].
    - intros p x Hin. destruct (Hev _ Hin) as [[y Hy] | [[y Hy] | Hy]]; discriminate.
    - intros n x Hin. destruct (Hev _ Hin) as [[y Hy] | [[y Hy] | Hy]]; congruence.
    - intros uri x Hin. destruct (Hev _ Hin) as [[y Hy] | [[y Hy] | Hy]]; discriminate. }
  intros [Hvalid | uploads Hvalid Hspec1 | uploads file_obj t polls o Hvalid Hspec1 Hspec2 Hret
         | uploads file_obj t polls processed_file generations r' Hvalid Hspec1 Hspec2 Hspec3].
  - split; [reflexivity |].
    split; [| split]; intros ? ? Hin; apply elem_of_nil in Hin; destruct Hin.
  - destruct (Hup _ _ Hspec1) as (Hpaths & Hnoget & Hnogen).
    split; [congruence |]. split; [exact Hpaths |].
    split; intros ? ? Hin; [destruct (Hnoget _ _ Hin) | destruct (Hnogen _ _ Hin)].
  - destruct (Hup _ _ Hspec1) as (Hpaths & Hnoget & Hnogen).
    destruct (Hpoll _ _ _ _ Hspec2) as (Hnoup & Hname & Hnogen2).
    destruct (upload_spec_events _ _ _ _ _ _ Hspec1) as [_ Hhandle].
    split; [congruence |]. split; [| split].
    + intros p x Hin. apply elem_of_app in Hin as [Hin | Hin]; [eauto |].
      apply elem_of_cons in Hin as [Hin | Hin]; [discriminate |].
      destruct (Hnoup _ _ Hin).
    + intros n x Hin. apply elem_of_app in Hin as [Hin | Hin]; [destruct (Hnoget _ _ Hin) |].
      apply elem_of_cons in Hin as [Hin | Hin]; [discriminate |].
      exists file_obj. split; [apply elem_of_app; left; apply Hhandle; reflexivity |].
      symmetry. eapply Hname, Hin.
    + intros uri x Hin. apply elem_of_app in Hin as [Hin | Hin]; [destruct (Hnogen _ _ Hin) |].
      apply elem_of_cons in Hin as [Hin | Hin]; [discriminate |].
      destruct (Hnogen2 _ _ Hin).
  - destruct (Hup _ _ Hspec1) as (Hpaths & Hnoget & Hnogen).
    destruct (Hpoll _ _ _ _ Hspec2) as (Hnoup & Hname & Hnogen2).
    destruct (upload_spec_events _ _ _ _ _ _ Hspec1) as [_ Hhandle].
    destruct (poll_spec_events _ _ _ _ _ _ Hspec2) as [_ Hready].
    destruct (Hready processed_file eq_refl) as [Hactive Hquery].
    pose proof (generate_spec_events _ _ _ _ _ _ Hspec3) as Hgen.
    split; [congruence |]. split; [| split].
    + intros p x Hin. apply elem_of_app in Hin as [Hin | Hin]; [eauto |].
      apply elem_of_cons in Hin as [Hin | Hin]; [discriminate |].
      apply elem_of_app in Hin as [Hin | Hin]; [destruct (Hnoup _ _ Hin) |].
      destruct (Hgen _ Hin) as [[y Hy] | [d Hd]]; discriminate.
    + intros n x Hin. apply elem_of_app in Hin as [Hin | Hin]; [destruct (Hnoget _ _ Hin) |].
      apply elem_of_cons in Hin as [Hin | Hin]; [discriminate |].
      apply elem_of_app in Hin as [Hin | Hin].
      * exists file_obj. split; [apply elem_of_app; left; apply Hhandle; reflexivity |].
        symmetry. eapply Hname, Hin.
      * destruct (Hgen _ Hin) as [[y Hy] | [d Hd]]; discriminate.
    + intros uri x Hin. exists (file_name file_obj), processed_file.
      split; [| split; [exact Hactive |]].
      * apply elem_of_app; right. apply list_elem_of_further, elem_of_app. left. exact Hquery.
      * apply elem_of_app in Hin as [Hin | Hin]; [destruct (Hnogen _ _ Hin) |].
        apply elem_of_cons in Hin as [Hin | Hin]; [discriminate |].
        apply elem_of_app in Hin as [Hin | Hin]; [destruct (Hnogen2 _ _ Hin) |].
        destruct (Hgen _ Hin) as [[y Hy] | [d Hd]]; congruence.
Qed.

(** X3.  In the calls of one analysis, every upload is of the analysed path;
    a status query is made only for the name of a handle that an upload of
    that path returned; a generation call is made only with the URI of a file
    that a status query reported as "ACTIVE"; and a file that fails the
    validation causes no call at all. *)
Theorem analyze_video_call_order (fs : FileSystem) (video_path : Path) (max_retries : nat)
    (s : State) :
  exists r s' events,
    analyze_video fs video_path max_retries s = Some (r, s') /\
    log s' = log s ++ events /\
    (is_valid_video_file fs video_path 10 = false -> events = []) /\
    (forall p x, EvUpload p x ∈ events -> p = video_path) /\
    (forall n x, EvGetFile n x ∈ events ->
       exists file_obj, EvUpload video_path (inr file_obj) ∈ events /\ file_name file_obj = n) /\
    (forall uri x, EvGenerate uri x ∈ events ->
       exists n f, EvGetFile n (inr f) ∈ events /\ file_state f = "ACTIVE" /\ file_uri f = uri).
Proof.
  destruct (analyze_video_run fs video_path max_retries s) as (r & s' & events & Hrun & Hlog & Hspec).
  exists r, s', events. split; [exact Hrun |]. split; [exact Hlog |].
  eapply analyze_spec_order, Hspec.
Qed.

(** ** How long the remote calls can go on *)

Lemma poll_loop_queries (file_obj : FileObj) (max_wait_time check_interval start_time : Q)
    (n : nat) (s : State) :
  (max_wait_time - (clock (world s) - start_time) < inject_Z (Z.of_nat n) * check_interval)%Q ->
  exists o s' events,
    poll_loop (S n) file_obj max_wait_time check_interval start_time s = Some (o, s') /\
    log s' = log s ++ events /\
    (status_queries events <= n)%nat.
Proof.
  revert s. induction n as [| n IH]; intros s Hleft;
    rewrite poll_loop_step; unfold bind at 1, do_time; cbn [world log];
    destruct (Qlt_le_dec max_wait_time (clock (world s) - start_time)) as [Hout | Hin].
  - eexists _, _, [EvClock (clock (world s))]. split; [reflexivity |].
    split; [reflexivity |]. cbn [status_queries]. lia.
  - exfalso. change (inject_Z (Z.of_nat 0)) with 0%Q in Hleft. lra.
  - eexists _, _, [EvClock (clock (world s))]. split; [reflexivity |].
    split; [reflexivity |]. cbn [status_queries]. lia.
  - unfold bind at 1, do_get_file, call. cbn [world log].
    pose proof (clock_get_file (file_name file_obj) (world s)) as Hmono.
    destruct (get_file (file_name file_obj) (world s)) as [[e | f] w]; cbn [snd] in Hmono.
    + eexists _, _, [EvClock (clock (world s)); EvGetFile (file_name file_obj) (inl e)].
      split; [reflexivity |]. split; [rewrite <- app_assoc; reflexivity |].
      cbn [status_queries]. lia.
    + destruct (String.eqb_spec (file_state f) "ACTIVE") as [Hactive | Hnot].
      { eexists _, _, [EvClock (clock (world s)); EvGetFile (file_name file_obj) (inr f)].
        split; [reflexivity |]. split; [rewrite <- app_assoc; reflexivity |].
        cbn [status_queries]. lia. }
      destruct (String.eqb_spec (file_state f) "FAILED") as [Hfailed | Hgoes].
      { eexists _, _, [EvClock (clock (world s)); EvGetFile (file_name file_obj) (inr f)].
        split; [reflexivity |]. split; [rewrite <- app_assoc; reflexivity |].
        cbn [status_queries]. lia. }
      destruct (Qlt_le_dec check_interval 0) as [Hneg | Hpos].
      { eexists _, _, [EvClock (clock (world s)); EvGetFile (file_name file_obj) (inr f)].
        split; [reflexivity |]. split; [rewrite <- app_assoc; reflexivity |].
        cbn [status_queries]. lia. }
      unfold bind at 1. rewrite do_sleep_returns by exact Hpos. cbn [world log].
      pose proof (clock_sleep check_interval w) as Hslept.
      set (s3 := mkState (time_sleep check_interval w) _).
      destruct (IH s3) as (o & s' & events & Hrun & Hlog & Hcount).
      { subst s3. cbn [world].
        rewrite Nat2Z.inj_succ in Hleft. unfold Z.succ in Hleft.
        rewrite inject_Z_plus in Hleft. change (inject_Z 1) with 1%Q in Hleft.
        set (k := inject_Z (Z.of_nat n)) in *. nra. }
      exists o, s',
        (EvClock (clock (world s)) :: EvGetFile (file_name file_obj) (inr f)
         :: EvSleep check_interval :: events).
      split; [exact Hrun |]. split.
      * rewrite Hlog. subst s3. cbn [log]. rewrite <- !app_assoc. reflexivity.
      * cbn [status_queries]. lia.
Qed.

Lemma poll_spec_sleeps (n : string) (max_wait_time check_interval start_time : Q)
    (events : list Event) (o : PollOutcome) :
  poll_spec n max_wait_time check_interval start_time events o ->
  Forall (eq check_interval) (sleeps events) /\
  (length (sleeps events) <= status_queries events)%nat.
Proof.
  induction 1 as [t Ht | t f Ht Hf | t f Ht Hf | t e Ht | t f Ht Ha Hf Hneg
                 | t f events o Ht Ha Hf Hpos Hspec [IHall IHlen]];
    cbn [sleeps status_queries length]; try solve [split; [constructor | lia]].
  split; [constructor; [reflexivity | exact IHall] | lia].
Qed.

Lemma wait_run_queries (file_obj : FileObj) (max_wait_time check_interval : Q) (s : State) :
  (0 < check_interval)%Q ->
  exists o s' events,
    wait_for_file_processing file_obj max_wait_time check_interval s = Some (o, s') /\
    log s' = log s ++ EvClock (clock (world s)) :: events /\
    poll_spec (file_name file_obj) max_wait_time check_interval (clock (world s)) events o /\
    (status_queries events <= S (Z.to_nat (Qfloor (max_wait_time / check_interval))))%nat.
Proof.
  intros Hpos.
  destruct (wait_run file_obj max_wait_time check_interval s Hpos)
    as (o & s' & events & Hrun & Hlog & Hspec).
  exists o, s', events. split; [exact Hrun |]. split; [exact Hlog |]. split; [exact Hspec |].
  revert Hrun. unfold wait_for_file_processing, poll_fuel.
  unfold bind at 1, do_time. cbn [world log].
  set (s1 := mkState (world s) _).
  destruct (poll_loop_queries file_obj max_wait_time check_interval (clock (world s))
              (S (Z.to_nat (Qfloor (max_wait_time / check_interval)))) s1)
    as (o' & s'' & events' & Hrun' & Hlog' & Hcount).
  { subst s1. cbn [world].
    pose proof (poll_fuel_enough max_wait_time check_interval Hpos) as Hfuel.
    set (k := inject_Z _) in *. lra. }
  rewrite Hrun'. intros [= -> ->].
  subst s1. cbn [log] in Hlog'. rewrite Hlog, <- app_assoc in Hlog'.
  apply app_inv_head in Hlog'. injection Hlog' as <-. exact Hcount.
Qed.

(** X4.  With a positive check interval, a clock that sleeping moves on by at
    least the time asked and that a status query does not turn back, the wait
    makes at most [floor (max_wait_time / check_interval) + 1] status
    queries (61 with the defaults) before it returns; it sleeps
    [check_interval] each time it sleeps, and never more often than it
    queries. *)
Theorem wait_for_file_processing_queries (file_obj : FileObj) (max_wait_time check_interval : Q)
    (s : State) :
  (0 < check_interval)%Q ->
  exists o s' events,
    wait_for_file_processing file_obj max_wait_time check_interval s = Some (o, s') /\
    log s' = log s ++ EvClock (clock (world s)) :: events /\
    (status_queries events <= S (Z.to_nat (Qfloor (max_wait_time / check_interval))))%nat /\
    (length (sleeps events) <= status_queries events)%nat /\
    Forall (eq check_interval) (sleeps events).
Proof.
  intros Hpos.
  destruct (wait_run_queries file_obj max_wait_time check_interval s Hpos)
    as (o & s' & events & Hrun & Hlog & Hspec & Hcount).
  exists o, s', events. split; [exact Hrun |]. split; [exact Hlog |].
  destruct (poll_spec_sleeps _ _ _ _ _ _ Hspec) as [Hall Hlen].
  split; [exact Hcount |]. split; assumption.
Qed.

Lemma upload_spec_total_sleep (p : Path) (max_retries : nat) (base_delay : Q) (n : nat)
    (events : list Event) (r : option FileObj) :
  upload_spec p max_retries base_delay n events r ->
  (0 <= base_delay)%Q -> (n <= max_retries)%nat ->
  (total_sleep events + base_delay * inject_Z (2 ^ Z.of_nat (S n)) + inject_Z (Z.of_nat n)
   <= base_delay * inject_Z (2 ^ Z.of_nat (S max_retries)) + inject_Z (Z.of_nat max_retries))%Q.
Proof.
  intros Hspec Hbase.
  assert (Hstop : forall n, (n <= max_retries)%nat ->
    (0 + base_delay * inject_Z (2 ^ Z.of_nat (S n)) + inject_Z (Z.of_nat n)
     <= base_delay * inject_Z (2 ^ Z.of_nat (S max_retries)) + inject_Z (Z.of_nat max_retries))%Q).
  { intros m Hm.
    assert (Hpow : (inject_Z (2 ^ Z.of_nat (S m)) <= inject_Z (2 ^ Z.of_nat (S max_retries)))%Q).
    { rewrite <- Zle_Qle. apply Z.pow_le_mono_r; lia. }
    assert (Hnat : (inject_Z (Z.of_nat m) <= inject_Z (Z.of_nat max_retries))%Q).
    { rewrite <- Zle_Qle. lia. }
    set (a := inject_Z (2 ^ Z.of_nat (S m))) in *.
    set (b := inject_Z (2 ^ Z.of_nat (S max_retries))) in *. nra. }
  induction Hspec as [n f | n e Hn | n e j events r Hn H0 H1 Hspec IH]; intros Hle.
  - apply Hstop, Hle.
  - apply Hstop, Hle.
  - specialize (IH ltac:(lia)).
    change (total_sleep (EvUpload p (inl e) :: EvSleep (backoff base_delay (S n) j) :: events))
      with (backoff base_delay (S n) j + total_sleep events)%Q.
    unfold backoff.
    assert (Hdouble : (inject_Z (2 ^ Z.of_nat (S (S n))) == 2 * inject_Z (2 ^ Z.of_nat (S n)))%Q).
    { change 2%Q with (inject_Z 2). rewrite <- inject_Z_mult.
      rewrite (Nat2Z.inj_succ (S n)), Z.pow_succ_r by lia. reflexivity. }
    assert (Hnext : (inject_Z (Z.of_nat (S n)) == inject_Z (Z.of_nat n) + 1)%Q).
    { rewrite Nat2Z.inj_succ. unfold Z.succ. rewrite inject_Z_plus. reflexivity. }
    rewrite Hdouble, Hnext in IH.
    set (a := inject_Z (2 ^ Z.of_nat (S n))) in *.
    set (b := inject_Z (2 ^ Z.of_nat (S max_retries))) in *.
    set (t := total_sleep events) in *. lra.
Qed.

(** X5.  With a base delay that is not negative, the delays an upload run
    sleeps add up to at most [base_delay * (2 ^ (max_retries + 1) - 2) +
    max_retries] seconds: at most 31 seconds with the defaults. *)
Theorem upload_total_sleep_bound (video_path : Path) (max_retries : nat) (base_delay : Q)
    (s : State) :
  (0 <= base_delay)%Q ->
  exists r s' events,
    upload_video_to_file_api video_path max_retries base_delay s = Some (r, s') /\
    log s' = log s ++ events /\
    (total_sleep events
     <= base_delay * (inject_Z (2 ^ Z.of_nat (S max_retries)) - 2)
        + inject_Z (Z.of_nat max_retries))%Q.
Proof.
  intros Hbase.
  destruct (upload_run video_path max_retries base_delay s Hbase)
    as (r & s' & events & Hrun & Hlog & Hspec).
  exists r, s', events. split; [exact Hrun |]. split; [exact Hlog |].
  pose proof (upload_spec_total_sleep _ _ _ _ _ _ Hspec Hbase ltac:(lia)) as Hsum.
  change (inject_Z (2 ^ Z.of_nat 1)) with 2%Q in Hsum.
  change (inject_Z (Z.of_nat 0)) with 0%Q in Hsum.
  set (b := inject_Z (2 ^ Z.of_nat (S max_retries))) in *.
  set (t := total_sleep events) in *. lra.
Qed.

(** ** More on the batch run *)






(** ** The response of a result is never empty *)



(** ** The formatters and the keys of a result *)

Lemma has_key_lookup (key : string) (d : Result) :
  has_key key d = match d !! key with Some _ => true | None => false end.
Proof.
  unfold has_key. destruct (d !! key) as [v |].
  - apply bool_decide_eq_true_2. eauto.
  - apply bool_decide_eq_false_2. intros [v Hv]. discriminate.
Qed.

Lemma csv_row_response_shape (filename response : string) :
  exists description tags,
    csv_row (response_result filename response) = Some [filename; description; tags].
Proof.
  rewrite csv_row_response. cbv zeta.
  destruct (parse_strict (split_lines (strip response)) "" "") as [description tags].
  destruct (if negb (truthy description) && negb (truthy tags)
            then parse_loose (split_lines (strip response)) description tags
            else (description, tags)) as [description' tags'].
  eauto.
Qed.

Lemma csv_row_lookup (r : Result) :
  csv_row r =
  match r !! "error", r !! "response", r !! "filename" with
  | Some message, _, Some filename => Some [filename; "ERROR: " +:+ message; ""]
  | None, Some response, Some filename => csv_row (response_result filename response)
  | _, _, _ => None
  end.
Proof.
  unfold csv_row at 1. rewrite has_key_lookup.
  destruct (r !! "error") as [message |], (r !! "response") as [response |],
    (r !! "filename") as [filename |]; reflexivity.
Qed.

Lemma txt_blocks_cons (r : Result) (results : list Result) (output : string) :
  txt_blocks (r :: results) output =
  match txt_block r with
  | Some block => txt_blocks results (output +:+ block)
  | None => None
  end.
Proof.
  unfold txt_block. cbn [txt_blocks]. rewrite has_key_lookup.
  destruct (r !! "filename") as [filename |]; [| reflexivity].
  destruct (r !! "error") as [message |].
  - rewrite !append_assoc. reflexivity.
  - destruct (r !! "response") as [response |]; [| reflexivity].
    rewrite !append_assoc. reflexivity.
Qed.

Lemma txt_block_lookup (r : Result) :
  txt_block r =
  match r !! "error", r !! "response", r !! "filename" with
  | Some message, _, Some filename =>
      Some ("File: " +:+ filename +:+ nl +:+ "Error: " +:+ message +:+ nl +:+ separator +:+ nl)
  | None, Some response, Some filename =>
      Some ("File: " +:+ filename +:+ nl +:+ response +:+ nl +:+ separator +:+ nl)
  | _, _, _ => None
  end.
Proof.
  unfold txt_block. cbn [txt_blocks]. rewrite has_key_lookup.
  destruct (r !! "filename") as [filename |];
    [| destruct (r !! "error"), (r !! "response"); reflexivity].
  destruct (r !! "error") as [message |].
  - destruct (r !! "response"); cbn [String.append]; rewrite !append_assoc; reflexivity.
  - destruct (r !! "response") as [response |]; [| reflexivity].
    cbn [String.append]. rewrite !append_assoc. reflexivity.
Qed.

Lemma txt_blocks_output (results : list Result) (output : string) :
  txt_blocks results output = (fun text => output +:+ text) <$> format_output_txt results.
Proof.
  unfold format_output_txt. revert output.
  induction results as [| r results IH]; intros output.
  - cbn. rewrite append_empty_r. reflexivity.
  - rewrite !txt_blocks_cons. destruct (txt_block r) as [block |]; [| reflexivity].
    rewrite (IH (output +:+ block)), (IH ("" +:+ block)).
    destruct (txt_blocks results "") as [text |]; [| reflexivity].
    cbn. rewrite append_assoc. reflexivity.
Qed.

Lemma format_output_txt_cons (r : Result) (results : list Result) :
  format_output_txt (r :: results) =
  match txt_block r, format_output_txt results with
  | Some block, Some text => Some (block +:+ text)
  | _, _ => None
  end.
Proof.
  unfold format_output_txt at 1. rewrite txt_blocks_cons.
  destruct (txt_block r) as [block |]; [| reflexivity].
  rewrite txt_blocks_output. destruct (format_output_txt results); reflexivity.
Qed.

(** X8.  The txt format writes its results one after the other: the text for
    a list is the texts of its parts put together, and a [KeyError] in
    either part is one for the whole; the block of a response result is the
    "File:" line, the response and the line of 80 dashes, the block of an
    error result the "File:" line, the "Error:" line and the line of
    dashes. *)
Theorem format_output_txt_app (results more : list Result) (filename text : string) :
  format_output_txt (results ++ more) =
    match format_output_txt results, format_output_txt more with
    | Some a, Some b => Some (a +:+ b)
    | _, _ => None
    end /\
  format_output_txt [response_result filename text]
    = Some ("File: " +:+ filename +:+ nl +:+ text +:+ nl +:+ separator +:+ nl) /\
  format_output_txt [error_result filename text]
    = Some ("File: " +:+ filename +:+ nl +:+ "Error: " +:+ text +:+ nl +:+ separator +:+ nl) /\
  String.length separator = 80%nat.
Proof.
  split; [| split; [| split]].
  - induction results as [| r results IH].
    + cbn [app]. change (format_output_txt []) with (Some "").
      destruct (format_output_txt more); reflexivity.
    + cbn [app]. rewrite !format_output_txt_cons, IH.
      destruct (txt_block r) as [block |]; [| reflexivity].
      destruct (format_output_txt results) as [a |]; [| reflexivity].
      destruct (format_output_txt more) as [b |]; [| reflexivity].
      rewrite append_assoc. reflexivity.
  - change (format_output_txt [response_result filename text])
      with (txt_block (response_result filename text)).
    rewrite txt_block_lookup. destruct (response_result_text filename text) as [-> ->].
    unfold response_result. rewrite lookup_insert_eq. reflexivity.
  - change (format_output_txt [error_result filename text])
      with (txt_block (error_result filename text)).
    rewrite txt_block_lookup, error_result_message.
    unfold error_result. rewrite lookup_insert_eq.
    reflexivity.
  - reflexivity.
Qed.

Lemma csv_rows_none (results : list Result) :
  csv_rows results = None <-> Exists (fun r => csv_row r = None) results.
Proof.
  induction results as [| r results IH]; cbn [csv_rows].
  - split; [discriminate | intros H; inversion H].
  - rewrite Exists_cons, <- IH.
    destruct (csv_row r) as [row |]; [| split; auto].
    destruct (csv_rows results) as [rows |]; split; try discriminate; auto.
    intros [H | H]; discriminate.
Qed.

Lemma format_output_txt_none (results : list Result) :
  format_output_txt results = None <-> Exists (fun r => txt_block r = None) results.
Proof.
  induction results as [| r results IH].
  - split; [discriminate | intros H; inversion H].
  - rewrite format_output_txt_cons, Exists_cons, <- IH.
    destruct (txt_block r) as [block |]; [| split; auto].
    destruct (format_output_txt results) as [text |]; split; try discriminate; auto.
    intros [H | H]; discriminate.
Qed.

Lemma csv_row_none (r : Result) :
  csv_row r = None <->
  r !! "filename" = None \/ (r !! "error" = None /\ r !! "response" = None).
Proof.
  rewrite csv_row_lookup.
  destruct (r !! "error") as [message |], (r !! "response") as [response |],
    (r !! "filename") as [filename |];
    try (destruct (csv_row_response_shape filename response) as (d & t & ->));
    split; try discriminate; auto; intros [H | [H1 H2]]; discriminate.
Qed.

Lemma txt_block_none (r : Result) :
  txt_block r = None <->
  r !! "filename" = None \/ (r !! "error" = None /\ r !! "response" = None).
Proof.
  rewrite txt_block_lookup.
  destruct (r !! "error") as [message |], (r !! "response") as [response |],
    (r !! "filename") as [filename |];
    split; try discriminate; auto; intros [H | [H1 H2]]; discriminate.
Qed.

(** X9.  The csv and the txt format raise a [KeyError] on exactly the same
    lists of results: those with a result that has no "filename", or has
    neither an "error" nor a "response". *)
Theorem format_output_key_error (results : list Result) :
  (format_output_csv results = None <->
   Exists (fun r : Result =>
             r !! "filename" = None \/ (r !! "error" = None /\ r !! "response" = None))
     results) /\
  (format_output_txt results = None <->
   Exists (fun r : Result =>
             r !! "filename" = None \/ (r !! "error" = None /\ r !! "response" = None))
     results).
Proof.
  split.
  - unfold format_output_csv.
    transitivity (csv_rows results = None).
    { destruct (csv_rows results); split; discriminate || reflexivity. }
    rewrite csv_rows_none, !Exists_exists. by setoid_rewrite csv_row_none.
  - rewrite format_output_txt_none, !Exists_exists. by setoid_rewrite txt_block_none.
Qed.

(** ** From a row of the results file to a result and back *)

Lemma length_rstrip (s : string) : (String.length (rstrip s) <= String.length s)%nat.
Proof.
  induction s as [| c s IH]; [reflexivity |].
  cbn [rstrip]. destruct (rstrip s) as [| c' r].
  - destruct (isspace c); cbn [String.length]; lia.
  - cbn [String.length] in *. lia.
Qed.

Lemma lstrip_shorter (s : string) :
  lstrip s = s \/ (String.length (lstrip s) < String.length s)%nat.
Proof.
  induction s as [| c s IH]; [by left |].
  cbn [lstrip]. destruct (isspace c); [| by left].
  right. cbn [String.length]. destruct IH as [-> | Hlt]; lia.
Qed.

Lemma strip_fixed (s : string) : strip s = s -> lstrip s = s /\ rstrip s = s.
Proof.
  unfold strip. intros Hs.
  assert (Hl : lstrip s = s).
  { destruct (lstrip_shorter s) as [Heq | Hlt]; [exact Heq |].
    pose proof (length_rstrip (lstrip s)) as Hle. rewrite Hs in Hle. lia. }
  split; [exact Hl |]. rewrite Hl in Hs. exact Hs.
Qed.

Lemma rstrip_app (a b : string) : rstrip b = b -> b <> "" -> rstrip (a +:+ b) = a +:+ b.
Proof.
  intros Hb Hne. induction a as [| c a IH]; [exact Hb |].
  rewrite append_cons. cbn [rstrip]. rewrite IH.
  destruct (a +:+ b) as [| c' r] eqn:Hab; [| reflexivity].
  destruct a; [change (b = "") in Hab; congruence | discriminate].
Qed.

Lemma startswith_char (x c : ascii) (s : string) :
  startswith (String x s) (String c "") = Ascii.eqb c x.
Proof.
  unfold startswith. cbn [String.prefix].
  destruct (ascii_dec c x) as [-> | Hne].
  - rewrite Ascii.eqb_refl. destruct s; reflexivity.
  - symmetry. apply Ascii.eqb_neq, Hne.
Qed.

Lemma split_char_absent (s : string) (c : ascii) :
  contains s (String c "") = false -> split_char s c = [s].
Proof.
  induction s as [| x s IH]; intros Hs; [reflexivity |].
  rewrite contains_cons, startswith_char in Hs. apply orb_false_iff in Hs as [Hx Hrest].
  cbn [split_char]. rewrite Ascii.eqb_sym, Hx, (IH Hrest). reflexivity.
Qed.

Lemma split_char_app (a b : string) (c : ascii) :
  contains a (String c "") = false ->
  split_char (a +:+ String c b) c = a :: split_char b c.
Proof.
  induction a as [| x a IH]; intros Ha.
  - change ("" +:+ String c b) with (String c b).
    cbn [split_char]. rewrite Ascii.eqb_refl. reflexivity.
  - rewrite contains_cons, startswith_char in Ha. apply orb_false_iff in Ha as [Hx Hrest].
    rewrite append_cons. cbn [split_char]. rewrite Ascii.eqb_sym, Hx, (IH Hrest). reflexivity.
Qed.

Lemma contains_app_char (a b : string) (c : ascii) :
  contains (a +:+ b) (String c "") = contains a (String c "") || contains b (String c "").
Proof.
  induction a as [| x a IH]; [reflexivity |].
  rewrite append_cons, !contains_cons, !startswith_char, IH. apply orb_assoc.
Qed.

Lemma remove_from_skip (p s old : string) :
  remove_from (p +:+ s) old (String.length p) = remove_from s old 0.
Proof.
  induction p as [| c p IH]; [reflexivity |].
  rewrite append_cons. cbn [String.length remove_from]. exact IH.
Qed.

Lemma startswith_app (p s : string) : startswith (p +:+ s) p = true.
Proof.
  unfold startswith. induction p as [| c p IH]; [destruct s; reflexivity |].
  rewrite append_cons. cbn [String.prefix].
  destruct (ascii_dec c c) as [_ | Hne]; [exact IH | congruence].
Qed.

Lemma remove_all_prefix (c : ascii) (old s : string) :
  remove_all (String c old +:+ s) (String c old) = remove_all s (String c old).
Proof.
  unfold remove_all. rewrite append_cons. cbn [remove_from].
  rewrite <- append_cons, startswith_app.
  cbn [String.length Nat.sub]. rewrite Nat.sub_0_r. apply remove_from_skip.
Qed.

Lemma remove_all_absent (s old : string) : contains s old = false -> remove_all s old = s.
Proof.
  unfold remove_all. induction s as [| c s IH]; intros Hs; [reflexivity |].
  rewrite contains_cons in Hs. apply orb_false_iff in Hs as [Hhere Hrest].
  cbn [remove_from]. rewrite Hhere, (IH Hrest). reflexivity.
Qed.

(** The line the resume writes for a field, and what the strict parser reads
    back from it. *)
Lemma marker_line_field (c : ascii) (marker field : string) :
  isspace c = false ->
  strip field = field -> field <> "" ->
  contains field (String c marker) = false ->
  strip (String c marker +:+ " " +:+ field) = String c marker +:+ " " +:+ field /\
  startswith (String c marker +:+ " " +:+ field) (String c marker) = true /\
  strip (remove_all (String c marker +:+ " " +:+ field) (String c marker)) = field.
Proof.
  intros Hc Hstrip Hne Habsent. destruct (strip_fixed field Hstrip) as [Hl Hr].
  split; [| split].
  - unfold strip. rewrite append_cons. cbn [lstrip]. rewrite Hc.
    rewrite <- append_cons, <- append_assoc. apply rstrip_app; assumption.
  - apply startswith_app.
  - rewrite remove_all_prefix, remove_all_absent.
    + unfold strip. change (" " +:+ field) with (String " " field).
      cbn [lstrip]. change (isspace " ") with true. cbn iota.
      rewrite Hl. exact Hr.
    + change (" " +:+ field) with (String " " field).
      rewrite contains_cons, Habsent, orb_false_r.
      unfold startswith. cbn [String.prefix].
      destruct (ascii_dec c " ") as [-> | _]; [discriminate Hc | reflexivity].
Qed.

(** X10.  A row of the results file and the result rebuilt from it on resume
    agree: for a description and tags of ASCII text that are not empty, have
    no white space at either end and no line break, and do not themselves
    contain the marker of their line, the csv format writes for the rebuilt
    result the very row it was rebuilt from. *)
Theorem csv_row_reconstituted (filename description tags : string) :
  ascii_only description = true -> ascii_only tags = true ->
  strip description = description -> strip tags = tags ->
  description <> "" -> tags <> "" ->
  contains description nl = false -> contains tags nl = false ->
  contains description "- Description:" = false -> contains tags "- Tags:" = false ->
  csv_row (reconstituted filename description tags) = Some [filename; description; tags].
Proof.
  intros _ _ Hd Ht Hdne Htne Hdnl Htnl Hdm Htm.
  destruct (marker_line_field "-" " Description:" description eq_refl Hd Hdne Hdm)
    as (Hd1 & Hd2 & Hd3).
  destruct (marker_line_field "-" " Tags:" tags eq_refl Ht Htne Htm) as (Ht1 & Ht2 & Ht3).
  change (String "-" " Description:" +:+ " " +:+ description)
    with ("- Description: " +:+ description) in *.
  change (String "-" " Tags:" +:+ " " +:+ tags) with ("- Tags: " +:+ tags) in *.
  change (String "-" " Description:") with "- Description:" in *.
  change (String "-" " Tags:") with "- Tags:" in *.
  unfold reconstituted. rewrite csv_row_response.
  assert (Hwhole : strip ("- Description: " +:+ description +:+ nl +:+ "- Tags: " +:+ tags)
                   = ("- Description: " +:+ description) +:+ String "010" ("- Tags: " +:+ tags)).
  { unfold strip.
    assert (Hl : lstrip ("- Description: " +:+ description +:+ nl +:+ "- Tags: " +:+ tags)
                 = "- Description: " +:+ description +:+ nl +:+ "- Tags: " +:+ tags)
      by reflexivity.
    rewrite Hl. destruct (strip_fixed tags Ht) as [_ Hr].
    rewrite <- !append_assoc. rewrite (rstrip_app _ tags Hr Htne).
    rewrite !append_assoc. reflexivity. }
  rewrite Hwhole. unfold split_lines.
  rewrite split_char_app, split_char_absent.
  - cbn [parse_strict]. rewrite Hd1, Hd2, Hd3, Ht1, Ht2, Ht3.
    assert (Hother : startswith ("- Tags: " +:+ tags) "- Description:" = false) by reflexivity.
    rewrite Hother. cbv zeta.
    apply truthy_true in Hdne. rewrite Hdne. reflexivity.
  - change ("- Tags: " +:+ tags) with ("- Tags: " +:+ tags).
    rewrite contains_app_char. fold nl. rewrite Htnl. reflexivity.
  - rewrite contains_app_char. fold nl. rewrite Hdnl. reflexivity.
Qed.

(** ** What holds of every result of a run *)

Section Results.

Variable P : Result -> Prop.

Variable fs : FileSystem.

Variable wait_time : Q.

Hypothesis wait_time_sleeps : (0 <= wait_time)%Q.

Hypothesis analysed :
  forall (f : Path) (max_retries : nat) (s0 s1 : State) (r : Result),
    analyze_video fs f max_retries s0 = Some (r, s1) -> P r.

Hypothesis rebuilt : forall filename description tags : string,
  P (reconstituted filename description tags).





End Results.




Lemma skip_set_described (results : list Result) (rows : list (list string))
    (filename : string) :
  csv_rows results = Some rows ->
  filename ∈ skip_set rows ->
  exists (r : Result) (description tags : string),
    r ∈ results /\ r !! "error" = None /\
    csv_row r = Some [filename; description; tags] /\
    filename <> "" /\ description <> "" /\ tags <> "".
Proof.
  revert rows. induction results as [| r results IH]; intros rows Hrows Hin.
  - injection Hrows as <-. unfold skip_set in Hin. cbn in Hin. set_solver.
  - cbn [csv_rows] in Hrows.
    destruct (csv_row r) as [row |] eqn:Hrow; [| discriminate].
    destruct (csv_rows results) as [rows' |]; [| discriminate].
    injection Hrows as <-.
    unfold skip_set in Hin. cbn [omap list_omap] in Hin.
    assert (Hrest : filename ∈ skip_set rows' ->
      exists (r0 : Result) (description tags : string),
        r0 ∈ r :: results /\ r0 !! "error" = None /\
        csv_row r0 = Some [filename; description; tags] /\
        filename <> "" /\ description <> "" /\ tags <> "").
    { intros Hin'. destruct (IH rows' eq_refl Hin') as (r0 & d & t & Hr0 & Hrest).
      exists r0, d, t. split; [by right | exact Hrest]. }
    destruct (populated_name row) as [n |] eqn:Hname; [| apply Hrest, Hin].
    cbn [list_to_set] in Hin. apply elem_of_union in Hin as [Hhere | Hin]; [| apply Hrest, Hin].
    apply elem_of_singleton in Hhere as ->.
    rewrite csv_row_lookup in Hrow.
    destruct (r !! "error") as [message |] eqn:He.
    { destruct (r !! "filename") as [f |]; [| destruct (r !! "response"); discriminate].
      assert (row = [f; "ERROR: " +:+ message; ""]) as ->
        by (destruct (r !! "response"); congruence).
      cbn [populated_name] in Hname. rewrite !andb_false_r in Hname. discriminate. }
    destruct (r !! "response") as [response |] eqn:Hr; [| discriminate].
    destruct (r !! "filename") as [f |] eqn:Hf; [| discriminate].
    destruct (csv_row_response_shape f response) as (d & t & Hshape).
    rewrite Hshape in Hrow. injection Hrow as <-.
    cbn [populated_name] in Hname.
    destruct (truthy f && (truthy d && truthy t)) eqn:Hall; [| discriminate].
    injection Hname as <-.
    apply andb_true_iff in Hall as [Hft Hall]. apply andb_true_iff in Hall as [Hdt Htt].
    exists r, d, t. split; [by left |]. split; [exact He |].
    split; [rewrite csv_row_lookup, He, Hr, Hf; exact Hshape |].
    rewrite <- !truthy_true. auto.
Qed.

(** X13.  Resuming from the rows that the csv format wrote for a list of
    results, a file is left out of the files to process only if some result
    of the list without an error was written under its name with both a
    description and tags: a file whose results are all errors, or lack the
    description or the tags, is analysed again. *)
Theorem resume_marks_only_described (fs : FileSystem) (results : list Result)
    (header : list string) (rows : list (list string)) (video_files : list Path) (f : Path) :
  csv_rows results = Some rows ->
  results_csv fs = Some (Row header :: (Row <$> rows)) ->
  f ∈ video_files ->
  f ∉ (check_previous fs false video_files).1 ->
  exists (r : Result) (description tags : string),
    r ∈ results /\ r !! "error" = None /\
    csv_row r = Some [name f; description; tags] /\
    name f <> "" /\ description <> "" /\ tags <> "".
Proof.
  intros Hrows Hcsv Hin Hout.
  rewrite (check_previous_read_through fs header rows video_files Hcsv) in Hout.
  cbn [fst] in Hout. apply (skip_set_described results rows (name f) Hrows).
  destruct (decide (name f ∈ skip_set rows)) as [Hskip | Hkeep]; [exact Hskip |].
  exfalso. apply Hout, elem_of_remove_processed. split; assumption.
Qed.

(** ** The order of a batch *)




(** ** The time one analysis can sleep *)

Lemma sleeps_app (a b : list Event) : sleeps (a ++ b) = sleeps a ++ sleeps b.
Proof.
  induction a as [| ev a IH]; [reflexivity |].
  destruct ev; cbn [app sleeps]; rewrite IH; reflexivity.
Qed.

Lemma total_sleep_app (a b : list Event) :
  (total_sleep (a ++ b) == total_sleep a + total_sleep b)%Q.
Proof.
  unfold total_sleep. rewrite sleeps_app.
  induction (sleeps a) as [| d l IH]; cbn [app fold_right]; [ring |].
  rewrite IH. ring.
Qed.

Lemma poll_spec_total_sleep (n : string) (max_wait_time check_interval start_time : Q)
    (events : list Event) (o : PollOutcome) :
  poll_spec n max_wait_time check_interval start_time events o ->
  (total_sleep events == inject_Z (Z.of_nat (length (sleeps events))) * check_interval)%Q.
Proof.
  unfold total_sleep.
  induction 1 as [t Ht | t f Ht Hf | t f Ht Hf | t e Ht | t f Ht Ha Hf Hneg
                 | t f events o Ht Ha Hf Hpos Hspec IH];
    cbn [sleeps fold_right length]; try (cbn; ring).
  rewrite IH, Nat2Z.inj_succ. unfold Z.succ. rewrite inject_Z_plus. ring.
Qed.

Lemma generate_spec_total_sleep (filename uri : string) (max_retries n : nat)
    (events : list Event) (r : Result) :
  generate_spec filename uri max_retries n events r ->
  (n <= max_retries)%nat ->
  (total_sleep events + 2 * inject_Z (2 ^ Z.of_nat (S n)) + inject_Z (Z.of_nat n)
   <= 2 * inject_Z (2 ^ Z.of_nat (S max_retries)) + inject_Z (Z.of_nat max_retries))%Q.
Proof.
  intros Hspec.
  assert (Hstop : forall n, (n <= max_retries)%nat ->
    (0 + 2 * inject_Z (2 ^ Z.of_nat (S n)) + inject_Z (Z.of_nat n)
     <= 2 * inject_Z (2 ^ Z.of_nat (S max_retries)) + inject_Z (Z.of_nat max_retries))%Q).
  { intros m Hm.
    assert (Hpow : (inject_Z (2 ^ Z.of_nat (S m)) <= inject_Z (2 ^ Z.of_nat (S max_retries)))%Q).
    { rewrite <- Zle_Qle. apply Z.pow_le_mono_r; lia. }
    assert (Hnat : (inject_Z (Z.of_nat m) <= inject_Z (Z.of_nat max_retries))%Q).
    { rewrite <- Zle_Qle. lia. }
    lra. }
  induction Hspec as [n x text Hx | n x Hx Hn | n x message Hx Hn
                     | n x j events r Hx Hn H0 H1 Hspec IH]; intros Hle.
  - apply Hstop, Hle.
  - apply Hstop, Hle.
  - apply Hstop, Hle.
  - specialize (IH ltac:(lia)).
    change (total_sleep (EvGenerate uri x :: EvSleep (backoff 2 (S n) j) :: events))
      with (backoff 2 (S n) j + total_sleep events)%Q.
    unfold backoff.
    assert (Hdouble : (inject_Z (2 ^ Z.of_nat (S (S n))) == 2 * inject_Z (2 ^ Z.of_nat (S n)))%Q).
    { change 2%Q with (inject_Z 2). rewrite <- inject_Z_mult.
      rewrite (Nat2Z.inj_succ (S n)), Z.pow_succ_r by lia. reflexivity. }
    assert (Hnext : (inject_Z (Z.of_nat (S n)) == inject_Z (Z.of_nat n) + 1)%Q).
    { rewrite Nat2Z.inj_succ. unfold Z.succ. rewrite inject_Z_plus. reflexivity. }
    rewrite Hdouble, Hnext in IH.
    set (a := inject_Z (2 ^ Z.of_nat (S n))) in *.
    set (b := inject_Z (2 ^ Z.of_nat (S max_retries))) in *.
    set (t := total_sleep events) in *. lra.
Qed.

(** X15.  One analysis sleeps for a bounded time whatever the remote side
    answers: at most 31 seconds between upload tries, 610 seconds between
    status queries, and [2 * (2 ^ (max_retries + 1) - 2) + max_retries]
    seconds between generation calls, that is 672 seconds in all with the
    three retries the batch run allows. *)
Theorem analyze_video_total_sleep (fs : FileSystem) (video_path : Path) (max_retries : nat)
    (s : State) :
  exists r s' events,
    analyze_video fs video_path max_retries s = Some (r, s') /\
    log s' = log s ++ events /\
    (total_sleep events
     <= 31 + 610 + (2 * (inject_Z (2 ^ Z.of_nat (S max_retries)) - 2)
                    + inject_Z (Z.of_nat max_retries)))%Q.
Proof.
  assert (Hgen0 : (0 <= 2 * (inject_Z (2 ^ Z.of_nat (S max_retries)) - 2)
                       + inject_Z (Z.of_nat max_retries))%Q).
  { assert (Hpow : (inject_Z (2 ^ Z.of_nat 1) <= inject_Z (2 ^ Z.of_nat (S max_retries)))%Q).
    { rewrite <- Zle_Qle. apply Z.pow_le_mono_r; lia. }
    assert (Hnat : (inject_Z (Z.of_nat 0) <= inject_Z (Z.of_nat max_retries))%Q).
    { rewrite <- Zle_Qle. lia. }
    change (inject_Z (2 ^ Z.of_nat 1)) with 2%Q in Hpow.
    change (inject_Z (Z.of_nat 0)) with 0%Q in Hnat. lra. }
  unfold analyze_video.
  destruct (is_valid_video_file fs video_path 10); cbn [negb].
  2:{ eexists _, s, []. split; [reflexivity |]. split; [rewrite app_nil_r; reflexivity |].
      change (total_sleep []) with 0%Q. lra. }
  destruct (upload_run video_path 3 2 s ltac:(discriminate)) as (up & s1 & ev1 & Hup & Hlog1 & Hspec1).
  unfold bind at 1. rewrite Hup.
  assert (Hsum1 : (total_sleep ev1 <= 31)%Q).
  { pose proof (upload_spec_total_sleep _ _ _ _ _ _ Hspec1 ltac:(discriminate) ltac:(lia)) as H.
    change (inject_Z (2 ^ Z.of_nat 1)) with 2%Q in H.
    change (inject_Z (Z.of_nat 0)) with 0%Q in H.
    change (inject_Z (2 ^ Z.of_nat 4)) with 16%Q in H.
    change (inject_Z (Z.of_nat 3)) with 3%Q in H. lra. }
  destruct up as [file_obj |].
  2:{ eexists _, s1, ev1. split; [reflexivity |]. split; [exact Hlog1 |]. lra. }
  destruct (wait_run_queries file_obj 600 10 s1)
    as (o & s2 & ev2 & Hwait & Hlog2 & Hspec2 & Hcount); [reflexivity |].
  unfold bind at 1. rewrite Hwait.
  assert (Hsum2 : (total_sleep (EvClock (clock (world s1)) :: ev2) <= 610)%Q).
  { change (total_sleep (EvClock (clock (world s1)) :: ev2)) with (total_sleep ev2).
    rewrite (poll_spec_total_sleep _ _ _ _ _ _ Hspec2).
    destruct (poll_spec_sleeps _ _ _ _ _ _ Hspec2) as [_ Hlen].
    change (Z.to_nat (Qfloor (600 / 10))) with 60%nat in Hcount.
    assert (Hk : (inject_Z (Z.of_nat (length (sleeps ev2))) <= inject_Z 61)%Q).
    { rewrite <- Zle_Qle. lia. }
    change (inject_Z 61) with 61%Q in Hk. lra. }
  destruct (returned o) as [processed_file |].
  2:{ eexists _, s2, (ev1 ++ EvClock (clock (world s1)) :: ev2).
      split; [reflexivity |]. split; [rewrite Hlog2, Hlog1, <- app_assoc; reflexivity |].
      rewrite total_sleep_app. lra. }
  destruct (generate_loop_spec (S (S max_retries)) (name video_path) processed_file
              max_retries 0 s2) as (r & s3 & ev3 & Hgen & Hlog3 & Hspec3); [lia | lia |].
  exists r, s3, (ev1 ++ (EvClock (clock (world s1)) :: ev2) ++ ev3).
  split; [exact Hgen |]. split.
  - rewrite Hlog3, Hlog2, Hlog1, <- !app_assoc. reflexivity.
  - rewrite !total_sleep_app.
    pose proof (generate_spec_total_sleep _ _ _ _ _ _ Hspec3 ltac:(lia)) as H.
    change (inject_Z (2 ^ Z.of_nat 1)) with 2%Q in H.
    change (inject_Z (Z.of_nat 0)) with 0%Q in H. lra.
Qed.

(** ** The cells of a csv row *)

Lemma has_char_nil (c : ascii) : contains "" (String c "") = false.
Proof. reflexivity. Qed.

Lemma has_char_cons (c x : ascii) (s : string) :
  contains (String x s) (String c "") = Ascii.eqb c x || contains s (String c "").
Proof. rewrite contains_cons, startswith_char. reflexivity. Qed.

Lemma lstrip_no_char (c : ascii) (s : string) :
  contains s (String c "") = false -> contains (lstrip s) (String c "") = false.
Proof.
  induction s as [| x s IH]; intros Hs; [exact Hs |].
  cbn [lstrip]. destruct (isspace x); [| exact Hs].
  rewrite has_char_cons in Hs. apply orb_false_iff in Hs as [_ Hs]. apply IH, Hs.
Qed.

Lemma rstrip_no_char (c : ascii) (s : string) :
  contains s (String c "") = false -> contains (rstrip s) (String c "") = false.
Proof.
  induction s as [| x s IH]; intros Hs; [exact Hs |].
  rewrite has_char_cons in Hs. apply orb_false_iff in Hs as [Hx Hs].
  cbn [rstrip]. specialize (IH Hs). destruct (rstrip s) as [| y r].
  - destruct (isspace x); [reflexivity |]. rewrite has_char_cons, Hx. reflexivity.
  - rewrite has_char_cons, Hx. exact IH.
Qed.

Lemma strip_no_char (c : ascii) (s : string) :
  contains s (String c "") = false -> contains (strip s) (String c "") = false.
Proof. intros Hs. unfold strip. apply rstrip_no_char, lstrip_no_char, Hs. Qed.

Lemma remove_from_no_char (c : ascii) (s old : string) (skip : nat) :
  contains s (String c "") = false -> contains (remove_from s old skip) (String c "") = false.
Proof.
  revert skip. induction s as [| x s IH]; intros skip Hs; [exact Hs |].
  rewrite has_char_cons in Hs. apply orb_false_iff in Hs as [Hx Hs].
  cbn [remove_from]. destruct skip as [| k]; [| apply IH, Hs].
  destruct (startswith (String x s) old); [apply IH, Hs |].
  rewrite has_char_cons, Hx. apply IH, Hs.
Qed.

Lemma drop_chars_no_char (c : ascii) (n : nat) (s : string) :
  contains s (String c "") = false -> contains (drop_chars n s) (String c "") = false.
Proof.
  revert s. induction n as [| n IH]; intros s Hs; [exact Hs |].
  destruct s as [| x s]; [exact Hs |]. cbn [drop_chars].
  rewrite has_char_cons in Hs. apply orb_false_iff in Hs as [_ Hs]. apply IH, Hs.
Qed.

Lemma split_once_no_char (c : ascii) (s sep a b : string) :
  split_once s sep = Some (a, b) ->
  contains s (String c "") = false -> contains b (String c "") = false.
Proof.
  revert a. induction s as [| x s IH]; intros a Hsplit Hs.
  - rewrite split_once_nil in Hsplit. destruct (startswith "" sep); [| discriminate].
    injection Hsplit as _ <-. apply drop_chars_no_char, Hs.
  - rewrite split_once_cons in Hsplit. destruct (startswith (String x s) sep).
    + injection Hsplit as _ <-. apply drop_chars_no_char, Hs.
    + destruct (split_once s sep) as [[a' b'] |] eqn:Hrest; [| discriminate].
      injection Hsplit as _ <-.
      rewrite has_char_cons in Hs. apply orb_false_iff in Hs as [_ Hs].
      eapply IH; [reflexivity | exact Hs].
Qed.

Lemma split_char_lines (s : string) (c : ascii) :
  Forall (fun line => contains line (String c "") = false) (split_char s c).
Proof.
  induction s as [| x s IH]; [repeat constructor |].
  cbn [split_char]. destruct (Ascii.eqb x c) eqn:Hx; [constructor; [reflexivity | exact IH] |].
  destruct (split_char s c) as [| h t]; [repeat constructor |].
  - rewrite has_char_cons, Ascii.eqb_sym, Hx. reflexivity.
  - inversion IH as [| ? ? Hh Ht]; subst. constructor; [| exact Ht].
    rewrite has_char_cons, Ascii.eqb_sym, Hx. exact Hh.
Qed.

Lemma lower_char_newline (x : ascii) : Ascii.eqb "010" (lower_char x) = Ascii.eqb "010" x.
Proof. destruct x as [[] [] [] [] [] [] [] []]; reflexivity. Qed.

Lemma lower_no_newline (s : string) : contains (lower s) nl = contains s nl.
Proof.
  unfold nl. induction s as [| x s IH]; [reflexivity |].
  change (lower (String x s)) with (String (lower_char x) (lower s)).
  rewrite !has_char_cons, IH, lower_char_newline. reflexivity.
Qed.

Lemma rstrip_idem (s : string) : rstrip (rstrip s) = rstrip s.
Proof.
  induction s as [| x s IH]; [reflexivity |].
  cbn [rstrip]. destruct (rstrip s) as [| y r] eqn:Hr.
  - destruct (isspace x) eqn:Hx; [reflexivity |]. cbn [rstrip]. rewrite Hx. reflexivity.
  - change (rstrip (String x (String y r)))
      with (match rstrip (String y r) with
            | "" => if isspace x then "" else String x ""
            | String c r' => String x (String c r')
            end).
    rewrite IH. reflexivity.
Qed.

Lemma lstrip_idem (s : string) : lstrip (lstrip s) = lstrip s.
Proof.
  induction s as [| x s IH]; [reflexivity |].
  cbn [lstrip]. destruct (isspace x) eqn:Hx; [exact IH |]. cbn [lstrip]. rewrite Hx. reflexivity.
Qed.

Lemma lstrip_rstrip (u : string) : lstrip u = u -> lstrip (rstrip u) = rstrip u.
Proof.
  destruct u as [| x u]; [reflexivity |]. intros Hu.
  assert (Hx : isspace x = false).
  { destruct (isspace x) eqn:Hx; [| reflexivity]. exfalso.
    cbn [lstrip] in Hu. rewrite Hx in Hu.
    destruct (lstrip_shorter u) as [Heq | Hlt]; rewrite Hu in *;
      [apply (f_equal String.length) in Heq | ]; cbn [String.length] in *; lia. }
  cbn [rstrip]. destruct (rstrip u) as [| y r].
  - rewrite Hx. cbn [lstrip]. rewrite Hx. reflexivity.
  - cbn [lstrip]. rewrite Hx. reflexivity.
Qed.

Lemma strip_idem (s : string) : strip (strip s) = strip s.
Proof.
  unfold strip. rewrite (lstrip_rstrip (lstrip s) (lstrip_idem s)). apply rstrip_idem.
Qed.

(** A cell: a text without white space at either end and without a line
    break. *)
Lemma strip_cell (s : string) :
  contains s nl = false -> strip (strip s) = strip s /\ contains (strip s) nl = false.
Proof. intros Hs. split; [apply strip_idem | apply strip_no_char, Hs]. Qed.

Lemma parse_strict_cells (response_lines : list string) (description tags : string) :
  Forall (fun line => contains line nl = false) response_lines ->
  strip description = description /\ contains description nl = false ->
  strip tags = tags /\ contains tags nl = false ->
  (strip (parse_strict response_lines description tags).1
     = (parse_strict response_lines description tags).1 /\
   contains (parse_strict response_lines description tags).1 nl = false) /\
  (strip (parse_strict response_lines description tags).2
     = (parse_strict response_lines description tags).2 /\
   contains (parse_strict response_lines description tags).2 nl = false).
Proof.
  intros Hlines. revert description tags.
  induction Hlines as [| line response_lines Hline Hlines IH]; intros description tags Hd Ht;
    cbn [parse_strict]; [split; assumption |].
  assert (Hcell : forall marker, strip (strip (remove_all (strip line) marker))
                                 = strip (remove_all (strip line) marker) /\
                                 contains (strip (remove_all (strip line) marker)) nl = false).
  { intros marker. apply strip_cell, remove_from_no_char, strip_no_char, Hline. }
  destruct (startswith (strip line) "- Description:"); [apply IH; [apply Hcell | exact Ht] |].
  destruct (startswith (strip line) "- Tags:"); [apply IH; [exact Hd | apply Hcell] |].
  apply IH; assumption.
Qed.

Lemma split1_second_cell (line marker part : string) :
  contains line nl = false -> split1 line marker !! 1%nat = Some part ->
  contains part nl = false.
Proof.
  intros Hline. unfold split1.
  destruct (split_once line marker) as [[a b] |] eqn:Hsplit; [| discriminate].
  intros [= <-]. eapply split_once_no_char; eassumption.
Qed.

Lemma parse_loose_cells (response_lines : list string) (description tags : string) :
  Forall (fun line => contains line nl = false) response_lines ->
  strip description = description /\ contains description nl = false ->
  strip tags = tags /\ contains tags nl = false ->
  (strip (parse_loose response_lines description tags).1
     = (parse_loose response_lines description tags).1 /\
   contains (parse_loose response_lines description tags).1 nl = false) /\
  (strip (parse_loose response_lines description tags).2
     = (parse_loose response_lines description tags).2 /\
   contains (parse_loose response_lines description tags).2 nl = false).
Proof.
  intros Hlines. revert description tags.
  induction Hlines as [| line response_lines Hline Hlines IH]; intros description tags Hd Ht;
    cbn [parse_loose]; [split; assumption |].
  assert (Hlower : contains (lower (strip line)) nl = false).
  { rewrite lower_no_newline. apply strip_no_char, Hline. }
  destruct (contains (lower (strip line)) "description:").
  { destruct (split1 (lower (strip line)) "description:" !! 1%nat) as [part |] eqn:Hpart;
      [| apply IH; assumption].
    apply IH; [| exact Ht]. eapply strip_cell, split1_second_cell; eassumption. }
  destruct (contains (lower (strip line)) "tags:"); [| apply IH; assumption].
  destruct (split1 (lower (strip line)) "tags:" !! 1%nat) as [part |] eqn:Hpart;
    [| apply IH; assumption].
  apply IH; [exact Hd |]. eapply strip_cell, split1_second_cell; eassumption.
Qed.

(** X16.  In the row the csv format writes for a result without an error,
    the description and the tags are each a single line without white space
    at either end, whatever the response looks like. *)
Theorem csv_row_cells (r : Result) (filename description tags : string) :
  r !! "error" = None ->
  csv_row r = Some [filename; description; tags] ->
  r !! "filename" = Some filename /\
  strip description = description /\ contains description nl = false /\
  strip tags = tags /\ contains tags nl = false.
Proof.
  intros He. rewrite csv_row_lookup, He.
  destruct (r !! "response") as [response |]; [| discriminate].
  destruct (r !! "filename") as [f |]; [| discriminate].
  rewrite csv_row_response. cbv zeta.
  pose proof (split_char_lines (strip response) "010") as Hlines.
  fold (split_lines (strip response)) in Hlines. fold nl in Hlines.
  assert (Hempty : strip "" = "" /\ contains "" nl = false) by (split; reflexivity).
  pose proof (parse_strict_cells _ "" "" Hlines Hempty Hempty) as Hstrict.
  destruct (parse_strict (split_lines (strip response)) "" "") as [d t]. cbn [fst snd] in Hstrict.
  destruct Hstrict as [Hd Ht].
  pose proof (parse_loose_cells _ d t Hlines Hd Ht) as Hloose.
  destruct (negb (truthy d) && negb (truthy t)).
  - destruct (parse_loose (split_lines (strip response)) d t) as [d' t'].
    cbn [fst snd] in Hloose. destruct Hloose as [[? ?] [? ?]].
    intros [= <- <- <-]. auto.
  - destruct Hd, Ht. intros [= <- <- <-]. auto.
Qed.

(** ** The second pass of the csv format *)

Lemma lower_cons (x : ascii) (s : string) : lower (String x s) = String (lower_char x) (lower s).
Proof. reflexivity. Qed.

Lemma lower_char_idem (x : ascii) : lower_char (lower_char x) = lower_char x.
Proof. destruct x as [[] [] [] [] [] [] [] []]; reflexivity. Qed.

Lemma lower_idem (s : string) : lower (lower s) = lower s.
Proof.
  induction s as [| x s IH]; [reflexivity |].
  rewrite !lower_cons, lower_char_idem, IH. reflexivity.
Qed.

Lemma lower_fixed_cons (x : ascii) (s : string) :
  lower (String x s) = String x s -> lower_char x = x /\ lower s = s.
Proof. rewrite lower_cons. intros [= Hx Hs]. split; assumption. Qed.

Lemma lstrip_lower (s : string) : lower s = s -> lower (lstrip s) = lstrip s.
Proof.
  induction s as [| x s IH]; intros Hs; [reflexivity |].
  cbn [lstrip]. destruct (isspace x); [| exact Hs].
  apply lower_fixed_cons in Hs as [_ Hs]. apply IH, Hs.
Qed.

Lemma rstrip_lower (s : string) : lower s = s -> lower (rstrip s) = rstrip s.
Proof.
  induction s as [| x s IH]; intros Hs; [reflexivity |].
  apply lower_fixed_cons in Hs as [Hx Hs]. specialize (IH Hs).
  cbn [rstrip]. destruct (rstrip s) as [| y r].
  - destruct (isspace x); [reflexivity |]. rewrite lower_cons, Hx. reflexivity.
  - rewrite lower_cons, Hx, IH. reflexivity.
Qed.

Lemma strip_lower (s : string) : lower s = s -> lower (strip s) = strip s.
Proof. intros Hs. unfold strip. apply rstrip_lower, lstrip_lower, Hs. Qed.

Lemma drop_chars_lower (n : nat) (s : string) : lower s = s -> lower (drop_chars n s) = drop_chars n s.
Proof.
  revert s. induction n as [| n IH]; intros s Hs; [exact Hs |].
  destruct s as [| x s]; [reflexivity |]. cbn [drop_chars].
  apply lower_fixed_cons in Hs as [_ Hs]. apply IH, Hs.
Qed.

Lemma split_once_lower (s sep a b : string) :
  split_once s sep = Some (a, b) -> lower s = s -> lower b = b.
Proof.
  revert a. induction s as [| x s IH]; intros a Hsplit Hs.
  - rewrite split_once_nil in Hsplit. destruct (startswith "" sep); [| discriminate].
    injection Hsplit as _ <-. apply drop_chars_lower, Hs.
  - rewrite split_once_cons in Hsplit. destruct (startswith (String x s) sep).
    + injection Hsplit as _ <-. apply drop_chars_lower, Hs.
    + destruct (split_once s sep) as [[a' b'] |] eqn:Hrest; [| discriminate].
      injection Hsplit as _ <-. apply lower_fixed_cons in Hs as [_ Hs].
      eapply IH; [reflexivity | exact Hs].
Qed.

Lemma parse_loose_lower (response_lines : list string) (description tags : string) :
  lower description = description -> lower tags = tags ->
  lower (parse_loose response_lines description tags).1
    = (parse_loose response_lines description tags).1 /\
  lower (parse_loose response_lines description tags).2
    = (parse_loose response_lines description tags).2.
Proof.
  revert description tags.
  induction response_lines as [| line response_lines IH]; intros description tags Hd Ht;
    cbn [parse_loose]; [split; assumption |].
  assert (Hpart : forall marker part,
    split1 (lower (strip line)) marker !! 1%nat = Some part -> lower (strip part) = strip part).
  { intros marker part. unfold split1.
    destruct (split_once (lower (strip line)) marker) as [[a b] |] eqn:Hsplit; [| discriminate].
    intros [= <-]. eapply strip_lower, split_once_lower; [exact Hsplit | apply lower_idem]. }
  destruct (contains (lower (strip line)) "description:").
  { destruct (split1 (lower (strip line)) "description:" !! 1%nat) as [part |] eqn:Hsplit;
      [| apply IH; assumption].
    apply IH; [eapply Hpart, Hsplit | exact Ht]. }
  destruct (contains (lower (strip line)) "tags:"); [| apply IH; assumption].
  destruct (split1 (lower (strip line)) "tags:" !! 1%nat) as [part |] eqn:Hsplit;
    [| apply IH; assumption].
  apply IH; [exact Hd | eapply Hpart, Hsplit].
Qed.

Lemma parse_strict_unmarked (response_lines : list string) (description tags : string) :
  Forall (fun line => startswith (strip line) "- Description:" = false /\
                      startswith (strip line) "- Tags:" = false) response_lines ->
  parse_strict response_lines description tags = (description, tags).
Proof.
  induction 1 as [| line response_lines [Hd Ht] _ IH]; cbn [parse_strict]; [reflexivity |].
  rewrite Hd, Ht. exact IH.
Qed.

(** X17.  When no line of a response of ASCII text starts with one of the
    two canonical markers, the csv format falls back on its second pass, and
    what it then writes as description and tags is in lower case: the second
    pass reads them off the lower-cased lines. *)
Theorem csv_row_second_pass_lower_case (filename response description tags : string) :
  ascii_only response = true ->
  Forall (fun line => startswith (strip line) "- Description:" = false /\
                      startswith (strip line) "- Tags:" = false)
    (split_lines (strip response)) ->
  csv_row (response_result filename response) = Some [filename; description; tags] ->
  (description, tags) = parse_loose (split_lines (strip response)) "" "" /\
  lower description = description /\ lower tags = tags.
Proof.
  intros _ Hlines. rewrite csv_row_response. cbv zeta.
  rewrite (parse_strict_unmarked _ "" "" Hlines). cbn [truthy negb andb].
  pose proof (parse_loose_lower (split_lines (strip response)) "" "" eq_refl eq_refl) as Hlower.
  destruct (parse_loose (split_lines (strip response)) "" "") as [d t]. cbn [fst snd] in Hlower.
  intros [= <- <-]. destruct Hlower. auto.
Qed.

End Facts.

(** ** The facts at concrete inputs *)

(** C1: the code at the failing input.  The previous results file holds the
    header row, the populated row of [video1.mp4], and a third row on which
    the reader raises.  The row is read and its result kept, but the
    exception leaves the [try] before the files are filtered: [video1.mp4] is
    uploaded and analysed again, and the returned list holds it twice, the
    fresh result first and the result rebuilt from the row last. *)
Example process_videos_relists_after_reader_error :
  Row video1_row ∈ csv_broken /\
  populated video1_row = Some (reconstituted "video1.mp4" "A calm lake." "[calm, lake]") /\
  run_summary (process_videos (sample_fs (Some "video/mp4") (Some csv_broken)) ["d"] 5 false None
                 (start_state smooth_script))
  = Some ([Some "video1.mp4"; Some "video2.mp4"; Some "video1.mp4"],
          [["d"; "video1.mp4"]; ["d"; "video2.mp4"]]).
Proof.
  split; [unfold csv_broken; apply list_elem_of_further, list_elem_of_here |].
  split; [reflexivity |]. vm_compute. reflexivity.
Qed.

(** C10: the code at the failing input.  With the same previous results file
    the rows read before the reader raises put [video1.mp4] in the skip set,
    and yet the file stays in the list to process, whatever directory it lies
    in: the exception skips the filter. *)
Example skip_filter_lost_on_reader_error :
  (let '(read_through, previous_processed, _) :=
     read_rows [Row video1_row; ReadError "field larger than field limit (131072)"] ∅ [] in
   (read_through, bool_decide ("video1.mp4" ∈ previous_processed))) = (false, true) /\
  (check_previous (sample_fs (Some "video/mp4") (Some csv_broken)) false
     [["d"; "video1.mp4"]; ["d"; "sub"; "video1.mp4"]; ["d"; "video2.mp4"]]).1
  = [["d"; "video1.mp4"]; ["d"; "sub"; "video1.mp4"]; ["d"; "video2.mp4"]] /\
  (check_previous (sample_fs (Some "video/mp4") (Some csv_good)) false
     [["d"; "video1.mp4"]; ["d"; "sub"; "video1.mp4"]; ["d"; "video2.mp4"]]).1
  = [["d"; "video2.mp4"]].
Proof. repeat split; vm_compute; reflexivity. Qed.



(** C6: the code at the failing input.  A response whose markers are in
    upper case makes the repair raise; the exception is caught, the call is
    retried, and after the last retry the file ends with an error result. *)
Example repair_raises_on_upper_case_markers :
  well_formed upper_text = false /\
  mentions_both upper_text = true /\
  handle_response (Some upper_text) = inl "list index out of range" /\
  run_summary (option_map (fun '(r, s) => ([r], s))
                 (analyze_video (sample_fs (Some "video/mp4") None) ["d"; "video1.mp4"] 3
                    (start_state upper_script)))
  = Some ([Some "video1.mp4"], [["d"; "video1.mp4"]]) /\
  option_map fst (analyze_video (sample_fs (Some "video/mp4") None) ["d"; "video1.mp4"] 3
                    (start_state upper_script))
  = Some (error_result "video1.mp4" "list index out of range").
Proof. repeat split; vm_compute; reflexivity. Qed.

Lemma upload_video_to_file_api_spec_witness :
  exists r s' events,
    upload_video_to_file_api ["d"; "video1.mp4"] 3 2 (start_state failing_script)
      = Some (r, s') /\
    log s' = log (start_state failing_script) ++ events /\
    answers (world (start_state failing_script)) events (world s') /\
    upload_spec ["d"; "video1.mp4"] 3 2 0 events r /\
    (1 <= upload_tries events <= 3 + 1)%nat /\
    (r = None -> upload_tries events = (3 + 1)%nat) /\
    (forall file_obj, r = Some file_obj ->
       List.last events (EvSleep 0) = EvUpload ["d"; "video1.mp4"] (inr file_obj) /\
       exists w, (upload_file ["d"; "video1.mp4"] w).1 = inr file_obj).
Proof.
  apply (upload_video_to_file_api_spec ["d"; "video1.mp4"] 3 2 (start_state failing_script)).
  split; [discriminate |]. split; [lia | discriminate].
Defined.

(** C8 as stated fails for a small base delay: with a quarter of a second
    and the draws 3/4 and 0, the second delay is shorter than the first. *)
Lemma upload_backoff_counterexample :
  exists r s' d1 d2 rest,
    upload_video_to_file_api ["d"; "video1.mp4"] 3 (1 # 4) (start_state failing_script)
      = Some (r, s') /\
    sleeps (log s') = d1 :: d2 :: rest /\
    (d2 < d1)%Q.
Proof.
  eexists _, _, _, _, _. split; [vm_compute; reflexivity |].
  split; [reflexivity |]. reflexivity.
Qed.

Lemma upload_backoff_bounds_witness :
  exists r s' events,
    upload_video_to_file_api ["d"; "video1.mp4"] 3 2 (start_state failing_script)
      = Some (r, s') /\
    log s' = log (start_state failing_script) ++ events /\
    (forall (i : nat) (d : Q), sleeps events !! i = Some d ->
       exists offset : Q,
         (0 <= offset)%Q /\ (offset <= 1)%Q /\
         d = (2 * inject_Z (2 ^ Z.of_nat (S i)) + offset)%Q /\
         (2 * inject_Z (2 ^ Z.of_nat (S i)) <= d)%Q) /\
    ((1 # 2 <= 2)%Q ->
     forall (i j : nat) (di dj : Q), (i < j)%nat ->
       sleeps events !! i = Some di -> sleeps events !! j = Some dj -> (di <= dj)%Q) /\
    ((1 # 2 < 2)%Q ->
     forall (i j : nat) (di dj : Q), (i < j)%nat ->
       sleeps events !! i = Some di -> sleeps events !! j = Some dj -> (di < dj)%Q).
Proof.
  apply (upload_backoff_bounds ["d"; "video1.mp4"] 3 2 (start_state failing_script)).
  split; [discriminate |]. split; [lia | discriminate].
Defined.

Lemma wait_for_file_processing_spec_witness :
  exists o s' events,
    wait_for_file_processing (sample_file "PROCESSING") 600 10 (start_state slow_script)
      = Some (o, s') /\
    log s' = log (start_state slow_script)
             ++ EvClock (clock (world (start_state slow_script))) :: events /\
    answers (world (start_state slow_script))
      (EvClock (clock (world (start_state slow_script))) :: events) (world s') /\
    poll_spec (file_name (sample_file "PROCESSING")) 600 10
      (clock (world (start_state slow_script))) events o /\
    returned o = Some (sample_file "ACTIVE").
Proof.
  destruct (wait_for_file_processing_spec (sample_file "PROCESSING") 600 10
              (start_state slow_script)) as [Hsound Hreturns].
  destruct (Hreturns eq_refl) as (o & s' & Hrun).
  destruct (Hsound o s' Hrun) as (events & Hlog & Hans & Hspec & _).
  exists o, s', events. split; [exact Hrun |]. split; [exact Hlog |].
  split; [exact Hans |]. split; [exact Hspec |].
  vm_compute in Hrun. injection Hrun as <- _. reflexivity.
Defined.


(** ** The further facts at concrete inputs *)

Lemma wait_for_file_processing_queries_witness :
  exists o s' events,
    wait_for_file_processing (sample_file "PROCESSING") 600 10 (start_state slow_script)
      = Some (o, s') /\
    log s' = log (start_state slow_script)
             ++ EvClock (clock (world (start_state slow_script))) :: events /\
    (status_queries events <= S (Z.to_nat (Qfloor (600 / 10))))%nat /\
    (length (sleeps events) <= status_queries events)%nat /\
    Forall (eq 10%Q) (sleeps events).
Proof.
  apply (wait_for_file_processing_queries (sample_file "PROCESSING") 600 10
           (start_state slow_script)).
  reflexivity.
Defined.

Lemma upload_total_sleep_bound_witness :
  exists r s' events,
    upload_video_to_file_api ["d"; "video1.mp4"] 3 2 (start_state failing_script)
      = Some (r, s') /\
    log s' = log (start_state failing_script) ++ events /\
    (total_sleep events <= 2 * (inject_Z (2 ^ Z.of_nat 4) - 2) + inject_Z (Z.of_nat 3))%Q.
Proof.
  apply (upload_total_sleep_bound ["d"; "video1.mp4"] 3 2 (start_state failing_script)).
  discriminate.
Defined.


Lemma csv_row_reconstituted_witness :
  csv_row (reconstituted "video1.mp4" "A calm lake." "[calm, lake]")
  = Some ["video1.mp4"; "A calm lake."; "[calm, lake]"].
Proof.
  apply (csv_row_reconstituted "video1.mp4" "A calm lake." "[calm, lake]").
  - reflexivity.
  - reflexivity.
  - reflexivity.
  - reflexivity.
  - discriminate.
  - discriminate.
  - reflexivity.
  - reflexivity.
  - reflexivity.
  - reflexivity.
Defined.

Lemma resume_marks_only_described_witness :
  exists (r : Result) (description tags : string),
    r ∈ [response_result "video1.mp4" good_text; error_result "video2.mp4" "timeout"] /\
    r !! "error" = None /\
    csv_row r = Some [name ["d"; "video1.mp4"]; description; tags] /\
    name ["d"; "video1.mp4"] <> "" /\ description <> "" /\ tags <> "".
Proof.
  apply (resume_marks_only_described
           (sample_fs (Some "video/mp4")
              (Some [Row csv_header; Row video1_row; Row ["video2.mp4"; "ERROR: timeout"; ""]]))
           [response_result "video1.mp4" good_text; error_result "video2.mp4" "timeout"]
           csv_header
           [video1_row; ["video2.mp4"; "ERROR: timeout"; ""]]
           [["d"; "video1.mp4"]; ["d"; "video2.mp4"]] ["d"; "video1.mp4"]).
  - vm_compute. reflexivity.
  - reflexivity.
  - apply list_elem_of_here.
  - vm_compute. intros Hin. apply list_elem_of_singleton in Hin. discriminate Hin.
Defined.


Lemma csv_row_cells_witness :
  response_result "video1.mp4" good_text !! "filename" = Some "video1.mp4" /\
  strip "A calm lake." = "A calm lake." /\ contains "A calm lake." nl = false /\
  strip "[calm, lake]" = "[calm, lake]" /\ contains "[calm, lake]" nl = false.
Proof.
  apply (csv_row_cells (response_result "video1.mp4" good_text) "video1.mp4" "A calm lake."
           "[calm, lake]").
  - vm_compute. reflexivity.
  - vm_compute. reflexivity.
Defined.

Lemma csv_row_second_pass_lower_case_witness :
  ("a dog", "[dog]")
  = parse_loose (split_lines (strip ("Description: A Dog" +:+ nl +:+ "Tags: [Dog]"))) "" "" /\
  lower "a dog" = "a dog" /\ lower "[dog]" = "[dog]".
Proof.
  apply (csv_row_second_pass_lower_case "video1.mp4"
           ("Description: A Dog" +:+ nl +:+ "Tags: [Dog]") "a dog" "[dog]").
  - reflexivity.
  - vm_compute. repeat constructor.
  - vm_compute. reflexivity.
Defined.




Lemma check_previous_compares_names_witness :
  (["d"; "sub"; "video1.mp4"]
     ∈ (check_previous (sample_fs (Some "video/mp4") (Some csv_good)) false
          (collect_video_files
             [["d"; "video1.mp4"]; ["d"; "sub"; "video1.mp4"]; ["d"; "video2.mp4"]] None)).1 <->
   ["d"; "sub"; "video1.mp4"]
     ∈ [["d"; "video1.mp4"]; ["d"; "sub"; "video1.mp4"]; ["d"; "video2.mp4"]] /\
   is_video_extension (lower (suffix ["d"; "sub"; "video1.mp4"])) = true /\
   True /\
   name ["d"; "sub"; "video1.mp4"] ∉ skip_set [video1_row]) /\
  (forall g : Path, name g = name ["d"; "sub"; "video1.mp4"] ->
     name ["d"; "sub"; "video1.mp4"] ∈ skip_set [video1_row] ->
     g ∉ (check_previous (sample_fs (Some "video/mp4") (Some csv_good)) false
            (collect_video_files
               [["d"; "video1.mp4"]; ["d"; "sub"; "video1.mp4"]; ["d"; "video2.mp4"]] None)).1).
Proof.
  apply (check_previous_compares_names (sample_fs (Some "video/mp4") (Some csv_good)) csv_header
           [video1_row] [["d"; "video1.mp4"]; ["d"; "sub"; "video1.mp4"]; ["d"; "video2.mp4"]]
           None ["d"; "sub"; "video1.mp4"]).
  reflexivity.
Defined.
